(** * The tool-directory dataset validator and the slug generator

    A shallow embedding of the validation script (the data-validation
    report over [tools.json] and the split category files) and of
    [slugify] from [scripts/add-slugs.ts].

    JavaScript strings are sequences of UTF-16 code units, JSON values are
    what [JSON.parse] returns, [undefined] is the absent case of an
    [option], and an exception is the [Throw] case of a completion. *)

From Stdlib Require Import Ascii String List NArith ZArith Bool Lia.
From Stdlib Require Import Permutation Sorted.
From Stdlib Require Import Floats.PrimFloat.
Import ListNotations.

#[local] Set Warnings "-register-all".
#[local] Open Scope list_scope.

(** ** JavaScript strings and values *)

Module JS.

(** A string is its list of UTF-16 code units. *)
Definition jsstring := list N.

(** An ASCII literal of the source, as code units. *)
Definition lit (s : string) : jsstring :=
  map N_of_ascii (list_ascii_of_string s).

Fixpoint str_eqb (a b : jsstring) : bool :=
  match a, b with
  | [], [] => true
  | x :: a', y :: b' => N.eqb x y && str_eqb a' b'
  | _, _ => false
  end.

(** WhiteSpace and LineTerminator code units: what [String.prototype.trim]
    strips and what [\s] matches. *)
Definition is_space (c : N) : bool :=
  (N.leb 9 c && N.leb c 13)            (* TAB LF VT FF CR *)
  || N.eqb c 32 || N.eqb c 160         (* SP, NBSP *)
  || N.eqb c 5760                      (* U+1680 *)
  || (N.leb 8192 c && N.leb c 8202)    (* U+2000 .. U+200A *)
  || N.eqb c 8232 || N.eqb c 8233      (* U+2028, U+2029 *)
  || N.eqb c 8239 || N.eqb c 8287      (* U+202F, U+205F *)
  || N.eqb c 12288 || N.eqb c 65279.   (* U+3000, U+FEFF *)

Fixpoint drop_while (p : N -> bool) (s : jsstring) : jsstring :=
  match s with
  | [] => []
  | c :: t => if p c then drop_while p t else s
  end.

(** [s.trim()] *)
Definition trim (s : jsstring) : jsstring :=
  rev (drop_while is_space (rev (drop_while is_space s))).

(** [k] is [s] without the white space at its two ends. *)
Definition trims_to (s k : jsstring) : Prop :=
  exists before after,
    s = before ++ k ++ after
    /\ Forall (fun c => is_space c = true) before
    /\ Forall (fun c => is_space c = true) after
    /\ (forall c rest, k = c :: rest -> is_space c = false)
    /\ (forall c rest, k = rest ++ [c] -> is_space c = false).

(** [s.startsWith(p)] *)
Fixpoint startsWith (s p : jsstring) : bool :=
  match p, s with
  | [], _ => true
  | _ :: _, [] => false
  | x :: p', y :: s' => N.eqb x y && startsWith s' p'
  end.

(** [s.endsWith(p)] *)
Definition endsWith (s p : jsstring) : bool :=
  startsWith (rev s) (rev p).

(** [s.includes(p)] *)
Fixpoint includes (s p : jsstring) : bool :=
  startsWith s p ||
  match s with
  | [] => false
  | _ :: t => includes t p
  end.

(** [s.replace(p, '')] with a string pattern: the first occurrence of [p]
    is removed, later ones stay. *)
Fixpoint remove_first (s p : jsstring) : jsstring :=
  if startsWith s p then skipn (length p) s
  else match s with
       | [] => []
       | c :: t => c :: remove_first t p
       end.

(** The result of [JSON.parse].  An object carries its members in document
    order; a repeated key keeps its last value. *)
Inductive json : Type :=
| JNull
| JBool (b : bool)
| JNum (x : float)
| JStr (s : jsstring)
| JArr (items : list json)
| JObj (members : list (jsstring * json)).

(** A JavaScript value that came out of a JSON document, or [undefined]. *)
Definition jsval := option json.
Definition undefined : jsval := None.

Fixpoint member (k : jsstring) (ms : list (jsstring * json)) : jsval :=
  match ms with
  | [] => undefined
  | (k', v) :: rest =>
      match member k rest with
      | Some w => Some w
      | None => if str_eqb k k' then Some v else undefined
      end
  end.

(** [o.k] on a value other than [null], for a key [k] that no built-in
    prototype defines ([tools], [content], [category], [title], [slug],
    [url]): only an object has it, as an own property. *)
Definition get (o : json) (k : string) : jsval :=
  match o with
  | JObj ms => member (lit k) ms
  | _ => undefined
  end.

(** What the script can raise: a failed file read, directory listing or
    [JSON.parse], and a [TypeError]. *)
Inductive js_error := ReadFailure | TypeError.

Inductive completion (A : Type) : Type :=
| Normal (a : A)
| Throw (e : js_error).
Arguments Normal {A} a.
Arguments Throw {A} e.

Definition bind {A B} (c : completion A) (k : A -> completion B)
  : completion B :=
  match c with
  | Normal a => k a
  | Throw e => Throw e
  end.

(** [o.k] in general: reading a property of [null] raises. *)
Definition prop (o : json) (k : string) : completion jsval :=
  match o with
  | JNull => Throw TypeError
  | _ => Normal (get o k)
  end.

(** [arr.forEach(f)] where [f] updates the state and may raise. *)
Fixpoint forEach {A S} (f : S -> A -> completion S) (st : S) (l : list A)
  : completion S :=
  match l with
  | [] => Normal st
  | x :: rest => bind (f st x) (fun st' => forEach f st' rest)
  end.

(** ToBoolean. *)
Definition truthy (v : jsval) : bool :=
  match v with
  | None => false
  | Some JNull => false
  | Some (JBool b) => b
  | Some (JNum x) => negb (PrimFloat.eqb x 0) && PrimFloat.eqb x x
  | Some (JStr s) => negb (str_eqb s [])
  | Some (JArr _) => true
  | Some (JObj _) => true
  end.

(** ToString of a parsed value, as a template literal applies it, goes
    through: an object converts by [Object.prototype.toString] unless a
    member named [toString] (never callable in a parsed document) hides
    it, and then the conversion raises a [TypeError]; an array joins the
    conversions of its elements. *)
Fixpoint printable (j : json) : bool :=
  match j with
  | JArr items => forallb printable items
  | JObj ms => negb (existsb (fun kv => str_eqb (lit "toString") (fst kv)) ms)
  | _ => true
  end.

Definition prints (v : jsval) : bool :=
  match v with
  | None => true
  | Some j => printable j
  end.

(** [typeof v] for a parsed value. *)
Inductive js_type := TObject | TBoolean | TNumber | TString.

Definition typeof (j : json) : js_type :=
  match j with
  | JNull => TObject
  | JBool _ => TBoolean
  | JNum _ => TNumber
  | JStr _ => TString
  | JArr _ => TObject
  | JObj _ => TObject
  end.

End JS.

Declare Scope js_scope.
Notation "x <- c ;; k" := (JS.bind c (fun x => k))
  (at level 61, c at next level, right associativity) : js_scope.

(** ** The validation script *)

Module Validator.
Import JS.
#[local] Open Scope js_scope.

Definition REQUIRED_REF : jsstring := lit "?ref=riseofmachine.com".

(** The object pushed for a record.  [url = None] is an object without a
    [url] property (the primary [toolInfo]); [Some v] is one whose [url]
    property holds [v] (the spread [{...toolInfo, url}] and the split
    [toolInfo]). *)
Record toolInfo := {
  title : jsval;
  category : jsval;
  slug : jsval;
  url : option jsval
}.

(** [tool.url] read back from a pushed object. *)
Definition url_of (t : toolInfo) : jsval :=
  match url t with
  | Some v => v
  | None => undefined
  end.

(** [{ category: categoryName, data: categoryData }] *)
Record structure_issue := {
  si_category : jsstring;
  si_data : json
}.

Record issues_t := {
  missing_url : list toolInfo;
  missing_protocol : list toolInfo;
  missing_ref : list toolInfo;
  invalid_structure : list structure_issue
}.

(** The [Map] from url to its owners, in key insertion order. *)
Definition url_entry := (jsstring * list toolInfo)%type.
Definition url_map := list url_entry.

Record state := {
  issues : issues_t;
  urlMap : url_map;
  totalTools : nat;
  splitToolsChecked : nat
}.

Definition init : state :=
  {| issues := {| missing_url := []; missing_protocol := [];
                  missing_ref := []; invalid_structure := [] |};
     urlMap := [];
     totalTools := 0;
     splitToolsChecked := 0 |}.

Definition push_missing_url (t : toolInfo) (st : state) : state :=
  {| issues := {| missing_url := missing_url (issues st) ++ [t];
                  missing_protocol := missing_protocol (issues st);
                  missing_ref := missing_ref (issues st);
                  invalid_structure := invalid_structure (issues st) |};
     urlMap := urlMap st;
     totalTools := totalTools st;
     splitToolsChecked := splitToolsChecked st |}.

Definition push_missing_protocol (t : toolInfo) (st : state) : state :=
  {| issues := {| missing_url := missing_url (issues st);
                  missing_protocol := missing_protocol (issues st) ++ [t];
                  missing_ref := missing_ref (issues st);
                  invalid_structure := invalid_structure (issues st) |};
     urlMap := urlMap st;
     totalTools := totalTools st;
     splitToolsChecked := splitToolsChecked st |}.

Definition push_missing_ref (t : toolInfo) (st : state) : state :=
  {| issues := {| missing_url := missing_url (issues st);
                  missing_protocol := missing_protocol (issues st);
                  missing_ref := missing_ref (issues st) ++ [t];
                  invalid_structure := invalid_structure (issues st) |};
     urlMap := urlMap st;
     totalTools := totalTools st;
     splitToolsChecked := splitToolsChecked st |}.

Definition push_invalid_structure (i : structure_issue) (st : state) : state :=
  {| issues := {| missing_url := missing_url (issues st);
                  missing_protocol := missing_protocol (issues st);
                  missing_ref := missing_ref (issues st);
                  invalid_structure := invalid_structure (issues st) ++ [i] |};
     urlMap := urlMap st;
     totalTools := totalTools st;
     splitToolsChecked := splitToolsChecked st |}.

Definition set_urlMap (m : url_map) (st : state) : state :=
  {| issues := issues st;
     urlMap := m;
     totalTools := totalTools st;
     splitToolsChecked := splitToolsChecked st |}.

Definition count_tool (st : state) : state :=
  {| issues := issues st;
     urlMap := urlMap st;
     totalTools := S (totalTools st);
     splitToolsChecked := splitToolsChecked st |}.

Definition count_split_tool (st : state) : state :=
  {| issues := issues st;
     urlMap := urlMap st;
     totalTools := totalTools st;
     splitToolsChecked := S (splitToolsChecked st) |}.

(** *** The [Map] operations the script uses *)

Fixpoint map_get (k : jsstring) (m : url_map) : option (list toolInfo) :=
  match m with
  | [] => None
  | (k', v) :: rest => if str_eqb k k' then Some v else map_get k rest
  end.

Definition map_has (k : jsstring) (m : url_map) : bool :=
  match map_get k m with
  | Some _ => true
  | None => false
  end.

(** [m.set(k, v)]: a present key keeps its place, a new key goes last. *)
Fixpoint map_set (k : jsstring) (v : list toolInfo) (m : url_map) : url_map :=
  match m with
  | [] => [(k, v)]
  | (k', v') :: rest =>
      if str_eqb k k' then (k', v) :: rest
      else (k', v') :: map_set k v rest
  end.

(** The owners registered under a key, none when the key is new. *)
Definition owners (k : jsstring) (m : url_map) : list toolInfo :=
  match map_get k m with
  | Some l => l
  | None => []
  end.

(** Lines 58-62: [if (!urlMap.has(url)) urlMap.set(url, []);
    urlMap.get(url).push(toolInfo)].  The array under the key is shared
    with the map, so the push shows in the map. *)
Definition track (u : jsstring) (t : toolInfo) (m : url_map)
  : completion url_map :=
  let m1 := if map_has u m then m else map_set u [] m in
  match map_get u m1 with
  | Some owners => Normal (map_set u (owners ++ [t]) m1)
  | None => Throw TypeError
  end.

(** *** The primary dataset (lines 30-65) *)

(** [tool.url?.trim()] *)
Definition trimmed_url (tool : json) : completion (option jsstring) :=
  u <- prop tool "url" ;;
  match u with
  | None => Normal None
  | Some JNull => Normal None
  | Some (JStr s) => Normal (Some (trim s))
  | Some _ => Throw TypeError
  end.

Definition has_protocol (u : jsstring) : bool :=
  startsWith u (lit "http://") || startsWith u (lit "https://").

(** [{ title: tool.title, category: category.category, slug: tool.slug }] *)
Definition primary_info (cat tool : json) : toolInfo :=
  {| title := get tool "title";
     category := get cat "category";
     slug := get tool "slug";
     url := None |}.

(** [{ ...toolInfo, url }] *)
Definition with_url (t : toolInfo) (u : jsstring) : toolInfo :=
  {| title := title t; category := category t; slug := slug t;
     url := Some (Some (JStr u)) |}.

Definition check_tool (cat : json) (st : state) (tool : json)
  : completion state :=
  let st := count_tool st in
  ou <- trimmed_url tool ;;
  let toolInfo := primary_info cat tool in
  match ou with
  | None => Normal (push_missing_url toolInfo st)
  | Some [] => Normal (push_missing_url toolInfo st)
  | Some u =>
      let st := if has_protocol u then st
                else push_missing_protocol (with_url toolInfo u) st in
      let st := if includes u REQUIRED_REF then st
                else push_missing_ref (with_url toolInfo u) st in
      m <- track u toolInfo (urlMap st) ;;
      Normal (set_urlMap m st)
  end.

Definition check_category (st : state) (cat : json) : completion state :=
  content <- prop cat "content" ;;
  match content with
  | Some (JArr tools) => forEach (check_tool cat) st tools
  | _ => Normal st
  end.

(** *** Duplicates (lines 68-70) *)

(** The comparator [(a, b) => b[1].length - a[1].length]. *)
Definition by_count_desc (a b : url_entry) : Z :=
  Z.of_nat (length (snd b)) - Z.of_nat (length (snd a)).

(** [Array.prototype.sort] is stable: an element moves behind a later one
    only when the comparator says it is greater.  For a consistent
    comparator that fixes the result, computed here by insertion. *)
Fixpoint insert_by {A} (cmp : A -> A -> Z) (x : A) (l : list A) : list A :=
  match l with
  | [] => [x]
  | y :: rest =>
      if Z.ltb 0 (cmp x y) then y :: insert_by cmp x rest
      else x :: l
  end.

Definition sort_by {A} (cmp : A -> A -> Z) (l : list A) : list A :=
  fold_right (insert_by cmp) [] l.

Definition has_many (e : url_entry) : bool :=
  Nat.ltb 1 (length (snd e)).

Definition find_duplicates (m : url_map) : list url_entry :=
  sort_by by_count_desc (filter has_many m).

(** The number of owners of an entry, and the order the duplicates are
    listed in: no entry before one with more owners. *)
Definition count (e : url_entry) : nat := length (snd e).

Definition count_is (n : nat) (e : url_entry) : bool := Nat.eqb (count e) n.

Definition count_desc (a b : url_entry) : Prop := count b <= count a.

(** *** The split category files (lines 72-111) *)

(** The directory [src/data/tools]: absent, present but not listable, or
    its entries in listing order, each with what reading and parsing it
    gives ([None] when [readFileSync] or [JSON.parse] raises). *)
Inductive tools_dir :=
| DirAbsent
| DirUnreadable
| DirListing (entries : list (jsstring * option json)).

(** [{ title: tool.title, category: categoryName, slug: tool.slug,
    url: tool.url }], for a [tool] other than [null]. *)
Definition split_info (categoryName : jsstring) (tool : json) : toolInfo :=
  {| title := get tool "title";
     category := Some (JStr categoryName);
     slug := get tool "slug";
     url := Some (get tool "url") |}.

Definition check_split_tool (categoryName : jsstring) (st : state)
  (tool : json) : completion state :=
  let st := count_split_tool st in
  _ <- prop tool "title" ;;
  let toolInfo := split_info categoryName tool in
  if negb (truthy (get tool "url")) then
    Normal (push_missing_url toolInfo st)
  else
    match get tool "url" with
    | Some (JStr u) =>
        let st := if has_protocol u then st
                  else push_missing_protocol toolInfo st in
        let st := if includes u REQUIRED_REF then st
                  else push_missing_ref toolInfo st in
        Normal st
    | _ => Throw TypeError
    end.

Definition check_file (st : state) (file : jsstring * option json)
  : completion state :=
  match snd file with
  | None => Throw ReadFailure
  | Some categoryData =>
      let categoryName := remove_first (fst file) (lit ".json") in
      match categoryData with
      | JArr tools => forEach (check_split_tool categoryName) st tools
      | _ => Normal (push_invalid_structure
                       {| si_category := categoryName;
                          si_data := categoryData |} st)
      end
  end.

Definition is_json_name (file : jsstring * option json) : bool :=
  endsWith (fst file) (lit ".json").

Definition check_split (st : state) (dir : tools_dir) : completion state :=
  match dir with
  | DirAbsent => Normal st
  | DirUnreadable => Throw ReadFailure
  | DirListing entries => forEach check_file st (filter is_json_name entries)
  end.

(** *** What the rules test, as propositions *)

Definition begins_with_protocol (u : jsstring) : Prop :=
  (exists rest, u = lit "http://" ++ rest)
  \/ (exists rest, u = lit "https://" ++ rest).

Definition carries_ref (u : jsstring) : Prop :=
  exists before after, u = before ++ REQUIRED_REF ++ after.

(** Which of the two tests a literal url passes: protocol, marker. *)
Definition rules_passed (u : string) : bool * bool :=
  (has_protocol (lit u), includes (lit u) REQUIRED_REF).

(** The bucket [new] is the bucket [old] with [t] pushed exactly when [P]
    fails. *)
Definition pushed_unless (P : Prop) (t : toolInfo) (old new : list toolInfo)
  : Prop :=
  (P /\ new = old) \/ (~ P /\ new = old ++ [t]).

(** *** The traversal as a whole *)

(** How the [try] block reaches the report: it exits early on a root that
    is not [{tools: array}], raises, or gets to line 113 with the final
    state and the duplicates. *)
Inductive audit_result :=
| InvalidRoot
| Raised (e : js_error)
| Completed (st : state) (duplicates : list url_entry).

Definition traverse (tools : list json) (dir : tools_dir)
  : completion (state * list url_entry) :=
  st <- forEach check_category init tools ;;
  let duplicates := find_duplicates (urlMap st) in
  st <- check_split st dir ;;
  Normal (st, duplicates).

(** [primary] is what reading and parsing [tools.json] gives, [None] when
    that raises. *)
Definition audit (primary : option json) (dir : tools_dir) : audit_result :=
  match primary with
  | None => Raised ReadFailure
  | Some data =>
      match prop data "tools" with
      | Throw e => Raised e
      | Normal (Some (JArr tools)) =>
          match traverse tools dir with
          | Throw e => Raised e
          | Normal (st, duplicates) => Completed st duplicates
          end
      | Normal _ => InvalidRoot
      end
  end.

(** *** The report (lines 113-185) *)

(** One constructor per [console.log] template, carrying the values the
    template interpolates. *)
Inductive log_line :=
| Title
| Rule
| TotalTools (total : nat) (split : option nat)
| UniqueUrls (n : nat)
| MissingUrlHead (n : nat)
| MissingUrlItem (i : nat) (title slug category : jsval)
| MissingProtocolHead (n : nat)
| MissingProtocolItem (i : nat) (title url : jsval)
| MissingRefHead (n : nat)
| MissingRefItem (i : nat) (title url : jsval)
| DuplicateHead (n : nat)
| DuplicateUrl (i : nat) (url : jsstring)
| DuplicateCount (n : nat)
| DuplicateItem (i : nat) (title slug category : jsval)
| InvalidStructureHead (n : nat)
| InvalidStructureItem (i : nat) (category : jsstring) (ty : js_type)
| Blank
| AllPassed
| Summary (n : nat).

(** The two [console.error] lines. *)
Inductive error_line :=
| InvalidToolsJson
| ErrorReading (e : js_error).

Record outcome := {
  stdout : list log_line;
  stderr : list error_line;
  exit_code : Z
}.

(** [l.forEach((x, i) => ...)] printing with the 1-based index [i + 1]. *)
Fixpoint each_from {A} (f : nat -> A -> list log_line) (i : nat) (l : list A)
  : list log_line :=
  match l with
  | [] => []
  | x :: rest => f (i + 1) x ++ each_from f (S i) rest
  end.

Definition section {A} (head : nat -> log_line)
  (item : nat -> A -> list log_line) (l : list A) : list log_line :=
  if Nat.ltb 0 (length l) then
    head (length l) :: each_from item 0 l ++ [Blank]
  else [].

Definition duplicate_lines (index : nat) (e : url_entry) : list log_line :=
  DuplicateUrl index (fst e)
  :: DuplicateCount (length (snd e))
  :: each_from (fun i t => [DuplicateItem i (title t) (slug t) (category t)])
       0 (snd e).

Definition sections (st : state) (duplicates : list url_entry)
  : list log_line :=
  section MissingUrlHead
    (fun i t => [MissingUrlItem i (title t) (slug t) (category t)])
    (missing_url (issues st))
  ++ section MissingProtocolHead
       (fun i t => [MissingProtocolItem i (title t) (url_of t)])
       (missing_protocol (issues st))
  ++ section MissingRefHead
       (fun i t => [MissingRefItem i (title t) (url_of t)])
       (missing_ref (issues st))
  ++ section DuplicateHead duplicate_lines duplicates
  ++ section InvalidStructureHead
       (fun i s => [InvalidStructureItem i (si_category s) (typeof (si_data s))])
       (invalid_structure (issues st)).

(** [hasIssues] once line 172 is reached. *)
Definition hasIssues (st : state) (duplicates : list url_entry) : bool :=
  Nat.ltb 0 (length (missing_url (issues st)))
  || Nat.ltb 0 (length (missing_protocol (issues st)))
  || Nat.ltb 0 (length (missing_ref (issues st)))
  || Nat.ltb 0 (length duplicates)
  || Nat.ltb 0 (length (invalid_structure (issues st))).

Definition issueCount (st : state) (duplicates : list url_entry) : nat :=
  length (missing_url (issues st)) + length (missing_protocol (issues st))
  + length (missing_ref (issues st)) + length (invalid_structure (issues st))
  + length duplicates.

Definition header (st : state) : list log_line :=
  [ Title; Rule;
    TotalTools (totalTools st)
      (if Nat.ltb 0 (splitToolsChecked st)
       then Some (splitToolsChecked st) else None);
    UniqueUrls (length (urlMap st)) ].

(** The values a line interpolates can all be converted to strings. *)
Definition line_prints (l : log_line) : bool :=
  match l with
  | MissingUrlItem _ t s c => prints t && prints s && prints c
  | MissingProtocolItem _ t u => prints t && prints u
  | MissingRefItem _ t u => prints t && prints u
  | DuplicateItem _ t s c => prints t && prints s && prints c
  | _ => true
  end.

(** The lines that reach the output when they are logged in order: all
    of them up to the first whose template literal raises. *)
Fixpoint printed (lines : list log_line) : list log_line :=
  match lines with
  | [] => []
  | l :: rest => if line_prints l then l :: printed rest else []
  end.

(** Lines 113-185.  A template literal that raises ends the report there:
    the lines before it are out, the [catch] prints its diagnostic. *)
Definition report (st : state) (duplicates : list url_entry) : outcome :=
  let body := header st ++ sections st duplicates ++ [Rule] in
  if negb (forallb line_prints body) then
    {| stdout := printed body; stderr := [ErrorReading TypeError];
       exit_code := 1 |}
  else if negb (hasIssues st duplicates) then
    {| stdout := body ++ [AllPassed]; stderr := []; exit_code := 0 |}
  else
    {| stdout := body ++ [Summary (issueCount st duplicates)];
       stderr := []; exit_code := 1 |}.

(** No bucket and no duplicate group has an entry. *)
Definition clean (st : state) (duplicates : list url_entry) : Prop :=
  missing_url (issues st) = [] /\ missing_protocol (issues st) = []
  /\ missing_ref (issues st) = [] /\ invalid_structure (issues st) = []
  /\ duplicates = [].

(** Every value the sections interpolate can be converted to a string. *)
Definition printable_report (st : state) (duplicates : list url_entry)
  : Prop :=
  forallb line_prints (sections st duplicates) = true.

(** The script: the [try] block and its [catch]. *)
Definition main (primary : option json) (dir : tools_dir) : outcome :=
  match audit primary dir with
  | InvalidRoot =>
      {| stdout := []; stderr := [InvalidToolsJson]; exit_code := 1 |}
  | Raised e =>
      {| stdout := []; stderr := [ErrorReading e]; exit_code := 1 |}
  | Completed st duplicates => report st duplicates
  end.

(** *** Sample documents *)

Definition str (s : string) : json := JStr (lit s).

Definition record (t u : string) : json :=
  JObj [(lit "title", str t); (lit "url", str u)].

Definition category_of (name : string) (tools : list json) : json :=
  JObj [(lit "category", str name); (lit "content", JArr tools)].

Definition dataset (cats : list json) : json :=
  JObj [(lit "tools", JArr cats)].

Definition good_a : string := "https://a.com/?ref=riseofmachine.com".
Definition good_b : string := "https://b.com/?ref=riseofmachine.com".

(** A record with a slug whose url has white space around it, and a
    split directory repeating that url twice. *)
Definition padded_a : string := "  https://a.com/?ref=riseofmachine.com  ".

Definition padded_record : json :=
  JObj [(lit "title", str "Alpha"); (lit "slug", str "alpha");
        (lit "url", str padded_a)].

Definition padded_dataset : json :=
  dataset [category_of "Writing" [padded_record]].

Definition padded_dir : tools_dir :=
  DirListing [(lit "writing.json",
               Some (JArr [record "Alpha" good_a; record "Beta" good_a]))].

(** A primary dataset with one well-formed record. *)
Definition clean_dataset : json :=
  dataset [category_of "Writing" [record "Alpha" good_a]].

(** A primary dataset whose only record has neither protocol nor marker. *)
Definition flagged_dataset : json :=
  dataset [category_of "Dev" [record "Ftp" "ftp://x.com"]].

(** A dataset whose first record has no url and a title that cannot be
    converted to a string. *)
Definition unprintable_dataset : json :=
  dataset [category_of "Dev"
             [JObj [(lit "title", JObj [(lit "toString", JNull)])];
              record "Ftp" "ftp://x.com"]].

(** A category whose [content] is an object, not an array. *)
Definition odd_category : json :=
  JObj [(lit "category", str "Odd");
        (lit "content", JObj [(lit "0", record "Hidden" "ftp://x.com")])].

(** A split file body that is an object. *)
Definition not_array : json := JObj [(lit "not", str "array")].

(** A split directory with an empty array and an object. *)
Definition tolerant_dir : tools_dir :=
  DirListing [(lit "empty.json", Some (JArr []));
              (lit "bad.json", Some not_array)].

(** A split directory whose second file does not parse. *)
Definition broken_dir : tools_dir :=
  DirListing [(lit "first.json", Some (JArr [record "Ftp" "ftp://x.com"]));
              (lit "broken.json", None);
              (lit "last.json", Some (JObj []))].

(** Two records under url b and three under url a, the first b ahead of
    the first a. *)
Definition three_and_two : json :=
  dataset [category_of "One" [record "B1" good_b; record "A1" good_a];
           category_of "Two" [record "A2" good_a; record "B2" good_b;
                              record "A3" good_a]].

(** A record whose url is only blanks, and a split directory with it. *)
Definition blank_record : json := record "Blank" "   ".

Definition blank_dir : tools_dir :=
  DirListing [(lit "dev.json", Some (JArr [blank_record]))].

(** A root without a [tools] key. *)
Definition no_tools_root : json :=
  JObj [(lit "categories", JArr [])].

End Validator.

(** ** [slugify] of [scripts/add-slugs.ts] *)

Module AddSlugs.
Import JS.

Definition hyphen : N := 45.

Definition is_hyphen (c : N) : bool := N.eqb c hyphen.

Definition is_upper (c : N) : bool := N.leb 65 c && N.leb c 90.
Definition is_lower (c : N) : bool := N.leb 97 c && N.leb c 122.
Definition is_digit (c : N) : bool := N.leb 48 c && N.leb c 57.

(** [\w] without flags: [A-Za-z0-9_]. *)
Definition is_word (c : N) : bool :=
  is_upper c || is_lower c || is_digit c || N.eqb c 95.

(** [[^\w-]] *)
Definition is_stripped (c : N) : bool := negb (is_word c || is_hyphen c).

(** What a finished run of matching units is replaced by: nothing when
    there was no run, [rep] when the run is long enough for the pattern,
    the run itself when it is too short to match. *)
Definition flush (least : nat) (rep run : jsstring) : jsstring :=
  match run with
  | [] => []
  | _ :: _ => if Nat.leb least (length run) then rep else run
  end.

(** [s.replace(/C{least,}/g, rep)] for a character class [C] and a
    replacement without [$]: scanning left to right, each maximal run of
    [C] of at least [least] units becomes [rep].  [run] is the run being
    scanned. *)
Fixpoint replace_runs (C : N -> bool) (least : nat) (rep run s : jsstring)
  : jsstring :=
  match s with
  | [] => flush least rep run
  | c :: t =>
      if C c then replace_runs C least rep (run ++ [c]) t
      else flush least rep run ++ c :: replace_runs C least rep [] t
  end.

Definition replace_all (C : N -> bool) (least : nat) (rep s : jsstring)
  : jsstring :=
  replace_runs C least rep [] s.

(** [s.replace(/^-+/, '')] *)
Definition strip_leading_hyphens (s : jsstring) : jsstring :=
  drop_while is_hyphen s.

(** [s.replace(/-+$/, '')] *)
Definition strip_trailing_hyphens (s : jsstring) : jsstring :=
  rev (drop_while is_hyphen (rev s)).

Section Slugify.

(** [String.prototype.toLowerCase], whose case tables are the engine's. *)
Variable toLowerCase : jsstring -> jsstring.

Definition slugify (text : jsstring) : jsstring :=
  let s := toLowerCase text in                  (* .toString().toLowerCase() *)
  let s := trim s in                            (* .trim() *)
  let s := replace_all is_space 1 [hyphen] s in (* .replace(/\s+/g, '-') *)
  let s := replace_all is_stripped 1 [] s in    (* .replace(/[^\w-]+/g, '') *)
  let s := replace_all is_hyphen 2 [hyphen] s in (* .replace(/--+/g, '-') *)
  let s := strip_leading_hyphens s in           (* .replace(/^-+/, '') *)
  strip_trailing_hyphens s.                     (* .replace(/-+$/, '') *)

End Slugify.

(** The steps in words: each maximal run of units of the class [C] becomes
    one [rep]; [inside] tells that the unit before was of the class. *)
Fixpoint collapse_runs (C : N -> bool) (rep : jsstring) (inside : bool)
  (s : jsstring) : jsstring :=
  match s with
  | [] => []
  | c :: t =>
      if C c then
        (if inside then [] else rep) ++ collapse_runs C rep true t
      else c :: collapse_runs C rep false t
  end.

Definition spaces_to_hyphens (s : jsstring) : jsstring :=
  collapse_runs is_space [hyphen] false s.

Definition keep_word_and_hyphen (s : jsstring) : jsstring :=
  filter (fun c => is_word c || is_hyphen c) s.

Definition squeeze_hyphens (s : jsstring) : jsstring :=
  collapse_runs is_hyphen [hyphen] false s.

(** [toLowerCase] on the ASCII letters, unit by unit. *)
Definition lower_ascii (s : jsstring) : jsstring :=
  map (fun c => if is_upper c then (c + 32)%N else c) s.

(** The units a slug is made of: [a-z], [0-9], [_] and the hyphen. *)
Definition is_slug_unit (c : N) : bool :=
  is_lower c || is_digit c || N.eqb c 95 || is_hyphen c.

End AddSlugs.

(** ** The record streams of the validator, as lists *)

Module Stream.
Import JS Validator.

(** The records a primary category contributes: its [content] when that
    is an array, nothing otherwise. *)
Definition records_of (cat : json) : list json :=
  match get cat "content" with
  | Some (JArr tools) => tools
  | _ => []
  end.

(** The primary records in traversal order, each with its category. *)
Definition stream (cats : list json) : list (json * json) :=
  flat_map (fun cat => map (pair cat) (records_of cat)) cats.

(** A record the primary path can examine: not [null], and its [url]
    absent, [null] or a string. *)
Definition tool_ok (tool : json) : bool :=
  match tool with
  | JNull => false
  | _ => match get tool "url" with
         | None => true
         | Some JNull => true
         | Some (JStr _) => true
         | Some _ => false
         end
  end.

Definition category_ok (cat : json) : bool :=
  match cat with
  | JNull => false
  | _ => forallb tool_ok (records_of cat)
  end.

(** A record the split path can examine: not [null], and its [url] falsy
    or a string. *)
Definition split_tool_ok (tool : json) : bool :=
  match tool with
  | JNull => false
  | _ => negb (truthy (get tool "url"))
         || match get tool "url" with
            | Some (JStr _) => true
            | _ => false
            end
  end.

Definition file_ok (file : jsstring * option json) : bool :=
  match snd file with
  | None => false
  | Some (JArr tools) => forallb split_tool_ok tools
  | Some _ => true
  end.

Definition dir_ok (dir : tools_dir) : bool :=
  match dir with
  | DirAbsent => true
  | DirUnreadable => false
  | DirListing entries => forallb file_ok (filter is_json_name entries)
  end.

(** The url the primary path examines for a record: the trimmed string,
    empty when there is none. *)
Definition url_text (tool : json) : jsstring :=
  match get tool "url" with
  | Some (JStr s) => trim s
  | _ => []
  end.

Definition is_blank (p : json * json) : bool :=
  str_eqb (url_text (snd p)) [].

Definition lacks_protocol (p : json * json) : bool :=
  negb (is_blank p) && negb (has_protocol (url_text (snd p))).

Definition lacks_ref (p : json * json) : bool :=
  negb (is_blank p) && negb (includes (url_text (snd p)) REQUIRED_REF).

Definition info_of (p : json * json) : toolInfo :=
  primary_info (fst p) (snd p).

Definition info_with_url (p : json * json) : toolInfo :=
  with_url (info_of p) (url_text (snd p)).

(** The state [st'] is [st] after the primary records [rs]: each bucket
    got the records its rule selects, in order, and every record was
    counted. *)
Definition extends (st st' : state) (rs : list (json * json)) : Prop :=
  missing_url (issues st')
  = missing_url (issues st) ++ map info_of (filter is_blank rs)
  /\ missing_protocol (issues st')
     = missing_protocol (issues st)
       ++ map info_with_url (filter lacks_protocol rs)
  /\ missing_ref (issues st')
     = missing_ref (issues st) ++ map info_with_url (filter lacks_ref rs)
  /\ invalid_structure (issues st') = invalid_structure (issues st)
  /\ totalTools st' = totalTools st + length rs.

(** The owners in the whole index. *)
Definition owner_total (m : url_map) : nat :=
  list_sum (map count m).

(** A section as it should read: nothing for an empty bucket, else the
    head with the bucket's size, the lines of each entry with its number,
    counted from 1 in bucket order, and a blank line. *)
Definition numbered {A} (head : nat -> log_line)
  (lines : nat -> A -> list log_line) (l : list A) : list log_line :=
  match l with
  | [] => []
  | _ :: _ =>
      head (length l)
      :: flat_map (fun p => lines (fst p) (snd p))
           (combine (seq 1 (length l)) l)
      ++ [Blank]
  end.

Definition group_lines (i : nat) (e : url_entry) : list log_line :=
  DuplicateUrl i (fst e)
  :: DuplicateCount (length (snd e))
  :: map (fun p => DuplicateItem (fst p) (title (snd p)) (slug (snd p))
                     (category (snd p)))
       (combine (seq 1 (length (snd e))) (snd e)).

(** The report up to its closing line: the header, the five sections in
    their fixed order, each over its own bucket, and the rule. *)
Definition layout (st : state) (duplicates : list url_entry)
  : list log_line :=
  header st
  ++ numbered MissingUrlHead
       (fun i t => [MissingUrlItem i (title t) (slug t) (category t)])
       (missing_url (issues st))
  ++ numbered MissingProtocolHead
       (fun i t => [MissingProtocolItem i (title t) (url_of t)])
       (missing_protocol (issues st))
  ++ numbered MissingRefHead
       (fun i t => [MissingRefItem i (title t) (url_of t)])
       (missing_ref (issues st))
  ++ numbered DuplicateHead group_lines duplicates
  ++ numbered InvalidStructureHead
       (fun i x => [InvalidStructureItem i (si_category x)
                      (typeof (si_data x))])
       (invalid_structure (issues st))
  ++ [Rule].

Definition closing_line (st : state) (duplicates : list url_entry)
  : log_line :=
  if hasIssues st duplicates then Summary (issueCount st duplicates)
  else AllPassed.

(** A line that closes a report. *)
Definition is_closing (l : log_line) : bool :=
  match l with
  | AllPassed => true
  | Summary _ => true
  | _ => false
  end.


(** An index entry as the script builds it: the key is a non-empty
    trimmed url and has at least one owner. *)
Definition well_formed_entry (e : url_entry) : Prop :=
  fst e <> [] /\ trim (fst e) = fst e /\ snd e <> [].

(** A pushed object without a [url] property: a primary [missing_url]
    finding. *)
Definition has_no_url_property (t : toolInfo) : bool :=
  match url t with
  | None => true
  | Some _ => false
  end.

(** What the report shows for a pushed object's url is a non-empty
    string that fails the test [ok]. *)
Definition flags_text (ok : jsstring -> bool) (t : toolInfo) : Prop :=
  exists u, url t = Some (Some (JStr u)) /\ u <> [] /\ ok u = false.

(** A dataset with a record that has no url and one that has no marker,
    and one whose second record is [null]. *)
Definition mixed_dataset : json :=
  dataset
    [category_of "Dev"
       [JObj [(lit "title", str "NoUrl")];
        record "NoRef" "https://x.com";
        record "Fine" good_a]].

Definition null_record_dataset : json :=
  dataset
    [category_of "Dev"
       [record "Ftp" "ftp://x.com"; JNull]].

End Stream.

(** ** The slug pass of [scripts/add-slugs.ts] (lines 30-36) *)

Module Maintenance.
Import JS AddSlugs.
#[local] Open Scope js_scope.

(** [tool.slug = v] on an object: a present key keeps its place and gets
    the value, a new key goes last. *)
Definition has_key (k : jsstring) (ms : list (jsstring * json)) : bool :=
  existsb (fun kv => str_eqb k (fst kv)) ms.

Definition set_member (k : jsstring) (v : json) (ms : list (jsstring * json))
  : list (jsstring * json) :=
  if has_key k ms then
    map (fun kv => if str_eqb k (fst kv) then (fst kv, v) else kv) ms
  else ms ++ [(k, v)].

Section GenerateSlugs.

(** The engine's case mapping, and its conversion to a string of a title
    that is neither a string nor [null] (it may raise). *)
Variable toLowerCase : jsstring -> jsstring.
Variable toString : json -> completion jsstring.

(** [slugify(tool.title)] up to [.toLowerCase()]: [text.toString()] raises
    on [undefined] and [null]. *)
Definition title_text (title : jsval) : completion jsstring :=
  match title with
  | None => Throw TypeError
  | Some JNull => Throw TypeError
  | Some (JStr s) => Normal s
  | Some j => toString j
  end.

(** One turn of the loop at lines 30-36: the record after it, and the
    slug that was generated and logged, if any. *)
Definition generate_slug (tool : json) : completion (json * option jsstring) :=
  s <- prop tool "slug" ;;
  if truthy s then Normal (tool, None)
  else
    text <- title_text (get tool "title") ;;
    let slug := slugify toLowerCase text in
    match tool with
    | JObj ms => Normal (JObj (set_member (lit "slug") (JStr slug) ms),
                         Some slug)
    | _ => Throw TypeError
    end.

(** The loop over a category's [content]: the content after it and the
    generated slugs in order; [modified] is set when there is one. *)
Fixpoint generate_slugs (tools : list json)
  : completion (list json * list jsstring) :=
  match tools with
  | [] => Normal ([], [])
  | tool :: rest =>
      r <- generate_slug tool ;;
      rs <- generate_slugs rest ;;
      Normal (fst r :: fst rs,
              match snd r with
              | Some slug => slug :: snd rs
              | None => snd rs
              end)
  end.

End GenerateSlugs.

(** A conversion for the titles of a sample: none of them needs one. *)
Definition no_conversion (j : json) : completion jsstring := Throw TypeError.

Definition titled (t : string) : json := JObj [(lit "title", JStr (lit t))].

Definition sample_content : list json :=
  [titled "Hello, World"; titled "?!";
   JObj [(lit "title", JStr (lit "Kept")); (lit "slug", JStr (lit "mine"))]].

End Maintenance.

(** ** The event handlers of [src/components/Dashboard.jsx] *)

(** The values carried by events and held in the component state are
    taken among the JSON values and [undefined]. *)
Module Dashboard.
Import JS.

(** The two pieces of component state. *)
Record dashboard := {
  searchQuery : jsval;
  filterNew : jsval
}.

(** [useState("")] and [useState(false)]. *)
Definition initial : dashboard :=
  {| searchQuery := Some (JStr []); filterNew := Some (JBool false) |}.

(** [e?.detail || {}]: [e] is [None] when the handler gets no event, else
    the event's [detail]. *)
Definition detail_of (e : option jsval) : json :=
  match e with
  | Some (Some d) => if truthy (Some d) then d else JObj []
  | _ => JObj []
  end.

(** Lines 10-15. *)
Definition handleSearch (e : option jsval) (s : dashboard) : dashboard :=
  match get (detail_of e) "query" with
  | Some q => {| searchQuery := Some q; filterNew := filterNew s |}
  | None => s
  end.

(** Lines 17-22. *)
Definition handleFilterNew (e : option jsval) (s : dashboard) : dashboard :=
  match get (detail_of e) "filterNew" with
  | Some f => {| searchQuery := searchQuery s; filterNew := Some f |}
  | None => s
  end.

(** An event whose detail is the object with the given members. *)
Definition event (ms : list (jsstring * json)) : option jsval :=
  Some (Some (JObj ms)).

End Dashboard.

(** ** Facts about the string operations *)

Import JS Validator AddSlugs.
#[local] Open Scope js_scope.

Lemma str_eqb_eq (a b : jsstring) : str_eqb a b = true <-> a = b.
Proof.
  revert b; induction a as [|x a IH]; intros [|y b]; simpl;
    try (split; [discriminate | congruence]); try tauto.
  rewrite andb_true_iff, N.eqb_eq, IH.
  split; [intros [-> ->]; reflexivity | intros H; injection H; auto].
Qed.

Lemma str_eqb_refl (a : jsstring) : str_eqb a a = true.
Proof. apply str_eqb_eq; reflexivity. Qed.

Lemma str_eqb_neq (a b : jsstring) : str_eqb a b = false <-> a <> b.
Proof.
  rewrite <- str_eqb_eq. destruct (str_eqb a b); split; congruence.
Qed.

(** [startsWith] is the prefix test. *)
Lemma startsWith_spec (s p : jsstring) :
  startsWith s p = true <-> exists rest, s = p ++ rest.
Proof.
  revert s; induction p as [|x p IH]; intros s; simpl.
  - split; [intros _; exists s; reflexivity | destruct s; reflexivity].
  - destruct s as [|y s].
    + split; [discriminate | intros [r H]; discriminate H].
    + simpl. rewrite andb_true_iff, N.eqb_eq, IH. split.
      * intros [-> [r ->]]. exists r; reflexivity.
      * intros [r H]. injection H as -> ->. split; [reflexivity | eauto].
Qed.

(** [includes] is the substring test. *)
Lemma includes_spec (s p : jsstring) :
  includes s p = true <-> exists before after, s = before ++ p ++ after.
Proof.
  induction s as [|c s IH].
  - cbn [includes]. rewrite orb_false_r, startsWith_spec. split.
    + intros [r H]. exists [], r. exact H.
    + intros [b [a H]]. destruct b as [|? ?]; [eauto | discriminate H].
  - cbn [includes]. rewrite orb_true_iff, IH, startsWith_spec. split.
    + intros [[r H] | [b [a H]]].
      * exists [], r. exact H.
      * exists (c :: b), a. rewrite H. reflexivity.
    + intros [[|x b] [a H]].
      * left. exists a. exact H.
      * right. injection H as _ ->. eauto.
Qed.

Lemma forEach_app {A S} (f : S -> A -> completion S) (st : S) (l1 l2 : list A) :
  forEach f st (l1 ++ l2) = (st' <- forEach f st l1 ;; forEach f st' l2).
Proof.
  revert st; induction l1 as [|x l1 IH]; intros st; simpl; [reflexivity|].
  destruct (f st x) as [st1|e]; simpl; [apply IH | reflexivity].
Qed.

(** ** Facts about the url index *)

Lemma map_get_set_same (k : jsstring) (v : list toolInfo) (m : url_map) :
  map_get k (map_set k v m) = Some v.
Proof.
  induction m as [|[k' v'] m IH]; simpl.
  - rewrite str_eqb_refl; reflexivity.
  - destruct (str_eqb k k') eqn:E; simpl; rewrite E; [reflexivity | exact IH].
Qed.

Lemma map_get_set_other (k k' : jsstring) (v : list toolInfo) (m : url_map) :
  k <> k' -> map_get k' (map_set k v m) = map_get k' m.
Proof.
  intros N. induction m as [|[k0 v0] m IH]; simpl.
  - assert (str_eqb k' k = false) as -> by (apply str_eqb_neq; congruence).
    reflexivity.
  - destruct (str_eqb k k0) eqn:E; simpl.
    + apply str_eqb_eq in E; subst k0.
      assert (str_eqb k' k = false) as -> by (apply str_eqb_neq; congruence).
      reflexivity.
    + destruct (str_eqb k' k0); [reflexivity | exact IH].
Qed.

(** Tracking never raises: it appends the owner under its key and leaves
    every other key as it was. *)
Lemma track_spec (u : jsstring) (t : toolInfo) (m : url_map) :
  exists m', track u t m = Normal m'
    /\ map_get u m' = Some (owners u m ++ [t])
    /\ forall k, k <> u -> map_get k m' = map_get k m.
Proof.
  unfold track, owners, map_has.
  destruct (map_get u m) as [l|] eqn:E.
  - rewrite E. eexists; split; [reflexivity|]. split.
    + apply map_get_set_same.
    + intros k N. apply map_get_set_other; congruence.
  - rewrite map_get_set_same. eexists; split; [reflexivity|]. split.
    + apply map_get_set_same.
    + intros k N. rewrite !map_get_set_other by congruence. reflexivity.
Qed.

(** ** The verdict and the report *)

Lemma hasIssues_false_iff (st : state) (duplicates : list url_entry) :
  hasIssues st duplicates = false <-> clean st duplicates.
Proof.
  unfold hasIssues, clean.
  destruct (missing_url (issues st)), (missing_protocol (issues st)),
    (missing_ref (issues st)), (invalid_structure (issues st)), duplicates;
    simpl; split; intros H; try discriminate H; try reflexivity;
    try (repeat split; reflexivity);
    decompose [and] H; discriminate.
Qed.

Lemma section_nil {A} (head : nat -> log_line)
  (item : nat -> A -> list log_line) : section head item [] = [].
Proof. reflexivity. Qed.

Lemma body_prints (st : state) (duplicates : list url_entry) :
  forallb line_prints (header st ++ sections st duplicates ++ [Rule])
  = forallb line_prints (sections st duplicates).
Proof.
  rewrite !forallb_app. cbn [header forallb line_prints andb].
  apply andb_true_r.
Qed.

Lemma report_clean (st : state) (duplicates : list url_entry) :
  clean st duplicates ->
  report st duplicates =
    {| stdout := header st ++ [Rule; AllPassed]; stderr := []; exit_code := 0 |}.
Proof.
  intros C. unfold report. rewrite body_prints.
  rewrite (proj2 (hasIssues_false_iff st duplicates) C).
  destruct C as (H1 & H2 & H3 & H4 & H5).
  unfold sections. rewrite H1, H2, H3, H4, H5, !section_nil. simpl.
  reflexivity.
Qed.

Lemma report_findings (st : state) (duplicates : list url_entry) :
  ~ clean st duplicates ->
  printable_report st duplicates ->
  report st duplicates =
    {| stdout := (header st ++ sections st duplicates ++ [Rule])
                 ++ [Summary (issueCount st duplicates)];
       stderr := []; exit_code := 1 |}.
Proof.
  intros C P. unfold report. rewrite body_prints, P. cbn [negb].
  destruct (hasIssues st duplicates) eqn:E; [reflexivity|].
  apply hasIssues_false_iff in E. contradiction.
Qed.

Lemma report_broken (st : state) (duplicates : list url_entry) :
  ~ printable_report st duplicates ->
  report st duplicates =
    {| stdout := printed (header st ++ sections st duplicates ++ [Rule]);
       stderr := [ErrorReading TypeError]; exit_code := 1 |}.
Proof.
  intros P. unfold report. rewrite body_prints.
  unfold printable_report in P.
  destruct (forallb line_prints (sections st duplicates));
    [contradiction P; reflexivity | reflexivity].
Qed.

Lemma printable_report_dec (st : state) (duplicates : list url_entry) :
  printable_report st duplicates \/ ~ printable_report st duplicates.
Proof.
  unfold printable_report.
  destruct (forallb line_prints (sections st duplicates));
    [left; reflexivity | right; discriminate].
Qed.

Lemma report_exit_code (st : state) (duplicates : list url_entry) :
  ~ clean st duplicates -> exit_code (report st duplicates) = 1%Z.
Proof.
  intros C. destruct (printable_report_dec st duplicates) as [P|P].
  - rewrite (report_findings _ _ C P). reflexivity.
  - rewrite (report_broken _ _ P). reflexivity.
Qed.

Lemma clean_dec (st : state) (duplicates : list url_entry) :
  clean st duplicates \/ ~ clean st duplicates.
Proof.
  rewrite <- hasIssues_false_iff.
  destruct (hasIssues st duplicates); [right; discriminate | left; reflexivity].
Qed.

(** C1: the exit code is 0 exactly when the traversal completes with every
    issue bucket empty and no duplicate group; in every other case (a
    finding of any kind, or no completed traversal) it is 1. *)
Theorem verdict_pass_iff_clean (primary : option json) (dir : tools_dir) :
  (exit_code (main primary dir) = 0%Z <->
     exists st duplicates,
       audit primary dir = Completed st duplicates /\ clean st duplicates)
  /\ (exit_code (main primary dir) = 0%Z \/ exit_code (main primary dir) = 1%Z)
  /\ (forall st duplicates,
        audit primary dir = Completed st duplicates ->
        ~ clean st duplicates -> exit_code (main primary dir) = 1%Z).
Proof.
  unfold main. destruct (audit primary dir) as [|e|st d]; simpl.
  - repeat split; try (right; reflexivity); try discriminate.
    intros (st & d & H & _); discriminate H.
  - repeat split; try (right; reflexivity); try discriminate.
    intros (st & d & H & _); discriminate H.
  - destruct (clean_dec st d) as [C|C].
    + rewrite (report_clean _ _ C). simpl. repeat split; auto.
      * intros _. exists st, d. split; [reflexivity | exact C].
      * intros st' d' H N. injection H as <- <-. contradiction.
    + rewrite (report_exit_code _ _ C). repeat split; auto.
      * discriminate.
      * intros (st' & d' & H & C'). injection H as <- <-. contradiction.
Qed.

(** C4 does not hold on a clean pass: the report of a dataset without
    findings ends with the success line and has no summary line. *)
Lemma clean_pass_renders_no_summary :
  audit (Some clean_dataset) DirAbsent
    = Completed
        {| issues := {| missing_url := []; missing_protocol := [];
                        missing_ref := []; invalid_structure := [] |};
           urlMap := [(lit good_a,
                       [{| title := Some (str "Alpha");
                           category := Some (str "Writing");
                           slug := undefined; url := None |}])];
           totalTools := 1; splitToolsChecked := 0 |} []
  /\ main (Some clean_dataset) DirAbsent
    = {| stdout := [Title; Rule; TotalTools 1 None; UniqueUrls 1; Rule;
                    AllPassed];
         stderr := []; exit_code := 0 |}.
Proof. split; vm_compute; reflexivity. Qed.

(** C4, restricted to runs with findings: a completed run with at least
    one finding, whose reported values can all be converted to strings,
    ends its report with the summary line, whose number is the sum of the
    four bucket sizes plus the number of duplicate url groups; a completed
    run without findings ends with the success line and renders no
    summary. *)
Theorem summary_counts_buckets_and_groups (primary : option json)
  (dir : tools_dir) (st : state) (duplicates : list url_entry) :
  audit primary dir = Completed st duplicates ->
  (~ clean st duplicates -> printable_report st duplicates ->
     exists body,
       stdout (main primary dir)
       = body ++ [Summary (length (missing_url (issues st))
                           + length (missing_protocol (issues st))
                           + length (missing_ref (issues st))
                           + length (invalid_structure (issues st))
                           + length duplicates)])
  /\ (clean st duplicates ->
       stdout (main primary dir) = header st ++ [Rule; AllPassed]
       /\ forall n, ~ In (Summary n) (stdout (main primary dir))).
Proof.
  intros H. unfold main. rewrite H. split.
  - intros C P. rewrite (report_findings _ _ C P). cbn [stdout].
    exists (header st ++ sections st duplicates ++ [Rule]). reflexivity.
  - intros C. rewrite (report_clean _ _ C). simpl. split; [reflexivity|].
    intros n [F|[F|[F|[F|[F|[F|[]]]]]]]; discriminate F.
Qed.

Lemma summary_counts_buckets_and_groups_witness :
  exists st duplicates,
    audit (Some flagged_dataset) DirAbsent = Completed st duplicates
    /\ ~ clean st duplicates
    /\ printable_report st duplicates
    /\ exists body,
         stdout (main (Some flagged_dataset) DirAbsent)
         = body ++ [Summary (length (missing_url (issues st))
                             + length (missing_protocol (issues st))
                             + length (missing_ref (issues st))
                             + length (invalid_structure (issues st))
                             + length duplicates)].
Proof.
  destruct (audit (Some flagged_dataset) DirAbsent) as [|e|st d] eqn:E;
    try (vm_compute in E; discriminate E).
  pose proof (proj1 (summary_counts_buckets_and_groups
                       (Some flagged_dataset) DirAbsent st d E)) as S.
  vm_compute in E. injection E as <- <-.
  eexists. eexists. split; [reflexivity|].
  assert (C : ~ clean
                {| issues :=
                     {| missing_url := [];
                        missing_protocol :=
                          [with_url
                             (primary_info
                                (category_of "Dev" [record "Ftp" "ftp://x.com"])
                                (record "Ftp" "ftp://x.com"))
                             (lit "ftp://x.com")];
                        missing_ref :=
                          [with_url
                             (primary_info
                                (category_of "Dev" [record "Ftp" "ftp://x.com"])
                                (record "Ftp" "ftp://x.com"))
                             (lit "ftp://x.com")];
                        invalid_structure := [] |};
                   urlMap :=
                     [(lit "ftp://x.com",
                       [primary_info
                          (category_of "Dev" [record "Ftp" "ftp://x.com"])
                          (record "Ftp" "ftp://x.com")])];
                   totalTools := 1; splitToolsChecked := 0 |} []).
  { intros (_ & X & _). discriminate X. }
  split; [exact C|]. split; [reflexivity|].
  exact (S C eq_refl).
Defined.

(** A finding whose title is an object with a [toString] member cannot be
    printed: the report breaks off before its line, the diagnostic of the
    [catch] follows and there is no summary. *)
Example unprintable_title_breaks_report :
  main (Some unprintable_dataset) DirAbsent
  = {| stdout := [Title; Rule; TotalTools 2 None; UniqueUrls 1;
                  MissingUrlHead 1];
       stderr := [ErrorReading TypeError]; exit_code := 1 |}.
Proof. vm_compute. reflexivity. Qed.

Example flagged_dataset_summary :
  exists body,
    stdout (main (Some flagged_dataset) DirAbsent) = body ++ [Summary 2].
Proof. eexists [_; _; _; _; _; _; _; _; _; _; _]. vm_compute. reflexivity. Qed.

(** C8: when [tools.json] cannot be read or parsed, or its root has no
    array under [tools], the run prints one diagnostic on the error stream,
    nothing on the report stream, exits with 1 and completes no traversal. *)
Theorem fatal_load_aborts (primary : option json) (dir : tools_dir) :
  (primary = None
   \/ exists data, primary = Some data
        /\ forall cats, get data "tools" <> Some (JArr cats)) ->
  (exists diagnostic,
     main primary dir
     = {| stdout := []; stderr := [diagnostic]; exit_code := 1 |})
  /\ forall st duplicates, audit primary dir <> Completed st duplicates.
Proof.
  intros [-> | (data & -> & H)].
  - split; [eexists; reflexivity | discriminate].
  - unfold main, audit, prop.
    destruct data as [|b|x|s|l|ms];
      try (split; [eexists; reflexivity | discriminate]).
    destruct (get (JObj ms) "tools") as [[|b|x|s|cats|ms']|] eqn:E;
      try (split; [eexists; reflexivity | discriminate]).
    exfalso. exact (H cats eq_refl).
Qed.

Lemma fatal_load_aborts_witness :
  (exists diagnostic,
     main (Some no_tools_root) DirAbsent
     = {| stdout := []; stderr := [diagnostic]; exit_code := 1 |})
  /\ forall st duplicates,
       audit (Some no_tools_root) DirAbsent <> Completed st duplicates.
Proof.
  apply (fatal_load_aborts (Some no_tools_root) DirAbsent).
  right. exists no_tools_root. split; [reflexivity|].
  intros cats H. vm_compute in H. discriminate H.
Defined.

(** ** Malformed containers *)

Lemma check_file_not_array (st : state) (name : jsstring) (body : json) :
  (forall items, body <> JArr items) ->
  check_file st (name, Some body)
  = Normal (push_invalid_structure
              {| si_category := remove_first name (lit ".json");
                 si_data := body |} st).
Proof.
  intros H. unfold check_file. cbn [fst snd].
  destruct body; try reflexivity. exfalso. exact (H items eq_refl).
Qed.

Lemma check_category_skips (st : state) (cat : json) :
  cat <> JNull ->
  (forall tools, get cat "content" <> Some (JArr tools)) ->
  check_category st cat = Normal st.
Proof.
  intros N H. unfold check_category, prop.
  destruct cat; try contradiction; cbn [bind];
    destruct (get _ "content") as [[| | | |tools|]|] eqn:E;
    try reflexivity; exfalso; exact (H tools eq_refl).
Qed.

(** C2 does not hold for every bad file: one split file that cannot be
    read or parsed aborts the whole run; nothing is reported for the file
    before it and the file after it is never examined. *)
Lemma unparsable_split_file_aborts :
  audit (Some clean_dataset) broken_dir = Raised ReadFailure
  /\ main (Some clean_dataset) broken_dir
    = {| stdout := []; stderr := [ErrorReading ReadFailure]; exit_code := 1 |}.
Proof. split; vm_compute; reflexivity. Qed.

(** C2, for files that parse: a split file with the [.json] extension
    that parses to anything but an array adds exactly one
    [invalid_structure] finding, whose category is the file name without
    its first [.json] and whose data is the parsed value (reported by its
    [typeof]), and the traversal goes on with the files after it. *)
Theorem non_array_split_file_is_recorded (name : jsstring) (body : json) :
  endsWith name (lit ".json") = true ->
  (forall items, body <> JArr items) ->
  let finding := {| si_category := remove_first name (lit ".json");
                    si_data := body |} in
  (forall st, check_file st (name, Some body)
              = Normal (push_invalid_structure finding st))
  /\ (forall st before after,
        check_split st (DirListing (before ++ (name, Some body) :: after))
        = (st1 <- check_split st (DirListing before) ;;
           check_split (push_invalid_structure finding st1)
             (DirListing after)))
  /\ (forall st,
        invalid_structure (issues (push_invalid_structure finding st))
        = invalid_structure (issues st) ++ [finding]
        /\ section InvalidStructureHead
             (fun i s => [InvalidStructureItem i (si_category s)
                            (typeof (si_data s))]) [finding]
           = [InvalidStructureHead 1;
              InvalidStructureItem 1 (remove_first name (lit ".json"))
                (typeof body);
              Blank]).
Proof.
  intros E H finding. split; [|split].
  - intros st. apply check_file_not_array. exact H.
  - intros st before after. unfold check_split.
    rewrite filter_app. cbn [filter]. unfold is_json_name at 2.
    cbn [fst]. rewrite E. rewrite forEach_app.
    destruct (forEach check_file st (filter is_json_name before)) as [st1|e];
      cbn [bind]; [|reflexivity].
    cbn [forEach]. rewrite (check_file_not_array st1 name body H).
    reflexivity.
  - intros st. split; reflexivity.
Qed.

Lemma non_array_split_file_is_recorded_witness :
  check_file init (lit "bad.json", Some not_array)
  = Normal (push_invalid_structure
              {| si_category := lit "bad"; si_data := not_array |} init).
Proof.
  refine (proj1 (non_array_split_file_is_recorded (lit "bad.json") not_array
                   eq_refl _) init).
  intros items H. discriminate H.
Defined.

(** The tolerance example: an empty array and an object in the split
    directory give a completed run with exactly one [invalid_structure]
    finding, for the second file. *)
Example split_tolerance_example :
  exists st,
    audit (Some clean_dataset) tolerant_dir = Completed st []
    /\ invalid_structure (issues st)
       = [{| si_category := lit "bad"; si_data := not_array |}]
    /\ missing_url (issues st) = [] /\ missing_protocol (issues st) = []
    /\ missing_ref (issues st) = []
    /\ main (Some clean_dataset) tolerant_dir
       = {| stdout := [Title; Rule; TotalTools 1 None; UniqueUrls 1;
                       InvalidStructureHead 1;
                       InvalidStructureItem 1 (lit "bad") TObject;
                       Blank; Rule; Summary 1];
            stderr := []; exit_code := 1 |}.
Proof. eexists. repeat split; vm_compute; reflexivity. Qed.

Lemma forEach_skip {A S} (f : S -> A -> completion S) (x : A)
  (before after : list A) (st : S) :
  (forall st', f st' x = Normal st') ->
  forEach f st (before ++ x :: after) = forEach f st (before ++ after).
Proof.
  intros H. rewrite !forEach_app.
  destruct (forEach f st before) as [st1|e]; cbn [bind]; [|reflexivity].
  cbn [forEach]. rewrite H. reflexivity.
Qed.

Lemma audit_tools (data : json) (tools : list json) (dir : tools_dir) :
  get data "tools" = Some (JArr tools) ->
  audit (Some data) dir =
    match traverse tools dir with
    | Throw e => Raised e
    | Normal (st, duplicates) => Completed st duplicates
    end.
Proof.
  intros H. unfold audit, prop.
  destruct data; try discriminate H; rewrite H; reflexivity.
Qed.

(** C10: a primary category (any entry of [tools] other than [null]) whose
    [content] is absent or not an array leaves the traversal state as it
    was, so no record is counted and no finding of any kind is recorded;
    the run behaves as if the entry were not there, and a dataset made of
    it alone passes, whereas a split file with a non-array body makes the
    same run fail. *)
Theorem primary_category_without_array_content_is_skipped (cat : json) :
  cat <> JNull ->
  (forall tools, get cat "content" <> Some (JArr tools)) ->
  (forall st, check_category st cat = Normal st)
  /\ (forall data data' before after dir,
        get data "tools" = Some (JArr (before ++ cat :: after)) ->
        get data' "tools" = Some (JArr (before ++ after)) ->
        main (Some data) dir = main (Some data') dir)
  /\ main (Some (dataset [cat])) DirAbsent
     = {| stdout := [Title; Rule; TotalTools 0 None; UniqueUrls 0; Rule;
                     AllPassed];
          stderr := []; exit_code := 0 |}
  /\ (forall name body,
        endsWith name (lit ".json") = true ->
        (forall items, body <> JArr items) ->
        exists st,
          audit (Some (dataset [cat])) (DirListing [(name, Some body)])
          = Completed st []
          /\ invalid_structure (issues st)
             = [{| si_category := remove_first name (lit ".json");
                   si_data := body |}]
          /\ exit_code (main (Some (dataset [cat]))
                          (DirListing [(name, Some body)])) = 1%Z).
Proof.
  intros N H.
  assert (S : forall st, check_category st cat = Normal st)
    by (intros st; apply check_category_skips; assumption).
  split; [exact S | split; [|split]].
  - intros data data' before after dir T T'.
    unfold main. rewrite (audit_tools _ _ _ T), (audit_tools _ _ _ T').
    unfold traverse. rewrite (forEach_skip _ _ _ _ _ S). reflexivity.
  - unfold main.
    rewrite (audit_tools (dataset [cat]) [cat] DirAbsent eq_refl).
    unfold traverse. cbn [forEach]. rewrite S. reflexivity.
  - intros name body E B.
    assert (A : audit (Some (dataset [cat])) (DirListing [(name, Some body)])
                = Completed
                    (push_invalid_structure
                       {| si_category := remove_first name (lit ".json");
                          si_data := body |} init) []).
    { rewrite (audit_tools (dataset [cat]) [cat] _ eq_refl).
      unfold traverse. cbn [forEach]. rewrite S. cbn [bind].
      unfold check_split. cbn [filter]. unfold is_json_name. cbn [fst].
      rewrite E. cbn [forEach]. rewrite (check_file_not_array _ _ _ B).
      reflexivity. }
    eexists. split; [exact A|]. split; [reflexivity|].
    unfold main. rewrite A. reflexivity.
Qed.

Lemma primary_category_without_array_content_is_skipped_witness :
  check_category init odd_category = Normal init
  /\ main (Some (dataset [odd_category])) DirAbsent
     = {| stdout := [Title; Rule; TotalTools 0 None; UniqueUrls 0; Rule;
                     AllPassed];
          stderr := []; exit_code := 0 |}.
Proof.
  assert (N : odd_category <> JNull) by discriminate.
  assert (H : forall tools, get odd_category "content" <> Some (JArr tools))
    by (intros tools E; vm_compute in E; discriminate E).
  split.
  - exact (proj1 (primary_category_without_array_content_is_skipped
                    odd_category N H) init).
  - exact (proj1 (proj2 (proj2
             (primary_category_without_array_content_is_skipped
                odd_category N H)))).
Defined.

(** ** The rules for one record *)

Lemma has_protocol_spec (u : jsstring) :
  has_protocol u = true <-> begins_with_protocol u.
Proof.
  unfold has_protocol, begins_with_protocol.
  rewrite orb_true_iff, !startsWith_spec. reflexivity.
Qed.

Lemma includes_ref_spec (u : jsstring) :
  includes u REQUIRED_REF = true <-> carries_ref u.
Proof. apply includes_spec. Qed.

Lemma pushed_unless_bool (b : bool) (P : Prop) (t : toolInfo)
  (old : list toolInfo) :
  (b = true <-> P) ->
  pushed_unless P t old (if b then old else old ++ [t]).
Proof.
  intros H. destruct b.
  - left. split; [apply H; reflexivity | reflexivity].
  - right. split; [|reflexivity]. intros p. apply H in p. discriminate p.
Qed.

(** A primary record with a string url that does not trim to nothing:
    what [check_tool] returns, bucket by bucket. *)
Lemma check_tool_with_url (cat : json) (st : state) (tool : json)
  (s : jsstring) :
  get tool "url" = Some (JStr s) -> trim s <> [] ->
  exists st',
    check_tool cat st tool = Normal st'
    /\ missing_url (issues st') = missing_url (issues st)
    /\ missing_protocol (issues st')
       = (if has_protocol (trim s) then missing_protocol (issues st)
          else missing_protocol (issues st)
               ++ [with_url (primary_info cat tool) (trim s)])
    /\ missing_ref (issues st')
       = (if includes (trim s) REQUIRED_REF then missing_ref (issues st)
          else missing_ref (issues st)
               ++ [with_url (primary_info cat tool) (trim s)])
    /\ invalid_structure (issues st') = invalid_structure (issues st)
    /\ totalTools st' = S (totalTools st)
    /\ map_get (trim s) (urlMap st')
       = Some (owners (trim s) (urlMap st) ++ [primary_info cat tool])
    /\ forall k, k <> trim s -> map_get k (urlMap st') = map_get k (urlMap st).
Proof.
  intros U T. unfold check_tool, trimmed_url, prop.
  destruct tool; try discriminate U. rewrite U. cbn [bind].
  destruct (trim s) as [|c u] eqn:E; [contradiction|].
  match goal with |- context [track ?k ?t ?m] =>
    destruct (track_spec k t m) as (m' & -> & G & O) end.
  cbn [bind]. eexists. split; [reflexivity|].
  destruct (has_protocol (c :: u)), (includes (c :: u) REQUIRED_REF);
    cbn; repeat split; try reflexivity; try exact G; try exact O.
Qed.

(** A split record with a non-empty string url. *)
Lemma check_split_tool_with_url (name : jsstring) (st : state) (tool : json)
  (s : jsstring) :
  get tool "url" = Some (JStr s) -> s <> [] ->
  exists st',
    check_split_tool name st tool = Normal st'
    /\ missing_url (issues st') = missing_url (issues st)
    /\ missing_protocol (issues st')
       = (if has_protocol s then missing_protocol (issues st)
          else missing_protocol (issues st) ++ [split_info name tool])
    /\ missing_ref (issues st')
       = (if includes s REQUIRED_REF then missing_ref (issues st)
          else missing_ref (issues st) ++ [split_info name tool])
    /\ invalid_structure (issues st') = invalid_structure (issues st)
    /\ urlMap st' = urlMap st.
Proof.
  intros U T. unfold check_split_tool, prop.
  destruct tool; try discriminate U. cbn [bind]. rewrite U.
  assert (truthy (Some (JStr s)) = true) as ->.
  { simpl. destruct s; [contradiction | reflexivity]. }
  cbn [negb]. eexists. split; [reflexivity|].
  destruct (has_protocol s), (includes s REQUIRED_REF);
    cbn; repeat split; reflexivity.
Qed.

(** On the url each path examines (the trimmed one in the primary
    stream, the stored one in the split stream) the protocol rule and the
    marker rule each decide on their own: the record is pushed to
    [missing_protocol] exactly when that url does not begin with
    [http://] or [https://], and to [missing_ref] exactly when it does
    not contain the marker.  All four combinations occur, and
    [ftp://x.com] triggers both rules in both streams. *)
Lemma protocol_and_ref_rules_are_independent :
  (forall cat st tool s,
     get tool "url" = Some (JStr s) -> trim s <> [] ->
     exists st',
       check_tool cat st tool = Normal st'
       /\ pushed_unless (begins_with_protocol (trim s))
            (with_url (primary_info cat tool) (trim s))
            (missing_protocol (issues st)) (missing_protocol (issues st'))
       /\ pushed_unless (carries_ref (trim s))
            (with_url (primary_info cat tool) (trim s))
            (missing_ref (issues st)) (missing_ref (issues st'))
       /\ missing_url (issues st') = missing_url (issues st))
  /\ (forall name st tool s,
       get tool "url" = Some (JStr s) -> s <> [] ->
       exists st',
         check_split_tool name st tool = Normal st'
         /\ pushed_unless (begins_with_protocol s) (split_info name tool)
              (missing_protocol (issues st)) (missing_protocol (issues st'))
         /\ pushed_unless (carries_ref s) (split_info name tool)
              (missing_ref (issues st)) (missing_ref (issues st'))
         /\ missing_url (issues st') = missing_url (issues st))
  /\ (rules_passed "ftp://x.com" = (false, false)
       /\ rules_passed "https://x.com" = (true, false)
       /\ rules_passed "x.com/?ref=riseofmachine.com" = (false, true)
       /\ rules_passed "http://x.com/?ref=riseofmachine.com" = (true, true))
  /\ (let tool := record "Ftp" "ftp://x.com" in
       let cat := category_of "Dev" [tool] in
       exists st st',
         check_tool cat init tool = Normal st
         /\ missing_protocol (issues st)
            = [with_url (primary_info cat tool) (lit "ftp://x.com")]
         /\ missing_ref (issues st)
            = [with_url (primary_info cat tool) (lit "ftp://x.com")]
         /\ check_split_tool (lit "dev") init tool = Normal st'
         /\ missing_protocol (issues st') = [split_info (lit "dev") tool]
         /\ missing_ref (issues st') = [split_info (lit "dev") tool]).
Proof.
  split; [|split; [|split]].
  - intros cat st tool s U T.
    destruct (check_tool_with_url cat st tool s U T)
      as (st' & E & Hu & Hp & Hr & _).
    exists st'. split; [exact E|]. rewrite Hp, Hr. repeat split.
    + apply pushed_unless_bool, has_protocol_spec.
    + apply pushed_unless_bool, includes_ref_spec.
    + exact Hu.
  - intros name st tool s U T.
    destruct (check_split_tool_with_url name st tool s U T)
      as (st' & E & Hu & Hp & Hr & _).
    exists st'. split; [exact E|]. rewrite Hp, Hr. repeat split.
    + apply pushed_unless_bool, has_protocol_spec.
    + apply pushed_unless_bool, includes_ref_spec.
    + exact Hu.
  - repeat split; vm_compute; reflexivity.
  - eexists. eexists. repeat split; vm_compute; reflexivity.
Qed.

(** C7 on a url with white space around it: the url of the record trims
    to a url that begins with [https://] and contains the marker, and the
    primary path, which tests the trimmed url, flags nothing; the split
    path, which tests the stored url, pushes the same record to
    [missing_protocol], so that the same record passes in [tools.json]
    and fails in a split file. *)
Theorem padded_url_is_flagged_by_the_split_path_only :
  trim (lit padded_a) = lit good_a
  /\ rules_passed good_a = (true, true)
  /\ check_tool (category_of "Writing" [padded_record]) init padded_record
     = Normal
         {| issues := {| missing_url := []; missing_protocol := [];
                         missing_ref := []; invalid_structure := [] |};
            urlMap := [(lit good_a,
                        [primary_info (category_of "Writing" [padded_record])
                           padded_record])];
            totalTools := 1; splitToolsChecked := 0 |}
  /\ check_split_tool (lit "writing") init padded_record
     = Normal
         {| issues :=
              {| missing_url := [];
                 missing_protocol := [split_info (lit "writing") padded_record];
                 missing_ref := [];
                 invalid_structure := [] |};
            urlMap := []; totalTools := 0; splitToolsChecked := 1 |}
  /\ exit_code (main (Some padded_dataset) DirAbsent) = 0%Z
  /\ main (Some (dataset []))
       (DirListing [(lit "writing.json", Some (JArr [padded_record]))])
     = {| stdout := [Title; Rule; TotalTools 0 (Some 1); UniqueUrls 0;
                     MissingProtocolHead 1;
                     MissingProtocolItem 1 (Some (str "Alpha"))
                       (Some (str padded_a));
                     Blank; Rule; Summary 1];
          stderr := []; exit_code := 1 |}.
Proof. repeat split; vm_compute; reflexivity. Qed.

(** A primary record whose url is absent, [null] or trims to nothing gets
    the one [missing_url] finding and nothing else. *)
Lemma check_tool_without_url (cat : json) (st : state) (tool : json) :
  tool <> JNull ->
  (get tool "url" = undefined \/ get tool "url" = Some JNull
   \/ exists s, get tool "url" = Some (JStr s) /\ trim s = []) ->
  check_tool cat st tool
  = Normal (push_missing_url (primary_info cat tool) (count_tool st)).
Proof.
  intros N H. unfold check_tool, trimmed_url, prop.
  destruct H as [H | [H | (u & H & T)]];
    destruct tool; try contradiction; try discriminate H;
    rewrite H; cbn [bind]; try rewrite T; reflexivity.
Qed.


(** C3 on a blank url: a split record whose url is three blanks
    trims to the empty url, yet the split path, which does not trim,
    pushes it to [missing_protocol] and [missing_ref] and not to
    [missing_url]; the primary path gives the same record its single
    [missing_url] finding. *)
Theorem split_blank_url_is_not_missing_url :
  trim (lit "   ") = []
  /\ check_split_tool (lit "dev") init blank_record
     = Normal
         {| issues :=
              {| missing_url := [];
                 missing_protocol := [split_info (lit "dev") blank_record];
                 missing_ref := [split_info (lit "dev") blank_record];
                 invalid_structure := [] |};
            urlMap := []; totalTools := 0; splitToolsChecked := 1 |}
  /\ check_tool (category_of "Dev" [blank_record]) init blank_record
     = Normal
         {| issues :=
              {| missing_url :=
                   [primary_info (category_of "Dev" [blank_record])
                      blank_record];
                 missing_protocol := [];
                 missing_ref := [];
                 invalid_structure := [] |};
            urlMap := []; totalTools := 1; splitToolsChecked := 0 |}
  /\ main (Some (dataset [])) blank_dir
     = {| stdout := [Title; Rule; TotalTools 0 (Some 1); UniqueUrls 0;
                     MissingProtocolHead 1;
                     MissingProtocolItem 1 (Some (str "Blank"))
                       (Some (str "   "));
                     Blank;
                     MissingRefHead 1;
                     MissingRefItem 1 (Some (str "Blank")) (Some (str "   "));
                     Blank; Rule; Summary 2];
          stderr := []; exit_code := 1 |}.
Proof. repeat split; vm_compute; reflexivity. Qed.

(** ** The url index *)

Lemma forEach_invariant {A S} (f : S -> A -> completion S) (P : S -> Prop) :
  (forall st x st', f st x = Normal st' -> P st -> P st') ->
  forall l st st', forEach f st l = Normal st' -> P st -> P st'.
Proof.
  intros step l. induction l as [|x l IH]; intros st st' E p; simpl in E.
  - injection E as <-. exact p.
  - destruct (f st x) as [st1|e] eqn:F; [|discriminate E].
    exact (IH st1 st' E (step _ _ _ F p)).
Qed.

Lemma forEach_reaches {A S} (f : S -> A -> completion S) (P : S -> Prop)
  (x : A) :
  (forall st y st', f st y = Normal st' -> P st -> P st') ->
  (forall st st', f st x = Normal st' -> P st') ->
  forall l st st', In x l -> forEach f st l = Normal st' -> P st'.
Proof.
  intros step hit l. induction l as [|y l IH]; intros st st' I E; [destruct I|].
  simpl in E. destruct (f st y) as [st1|e] eqn:F; [|discriminate E].
  destruct I as [-> | I].
  - exact (forEach_invariant f P step l st1 st' E (hit _ _ F)).
  - exact (IH st1 st' I E).
Qed.

(** The split files never write to the url index. *)
Lemma check_split_tool_urlMap (name : jsstring) (st : state) (tool : json)
  (st' : state) :
  check_split_tool name st tool = Normal st' -> urlMap st' = urlMap st.
Proof.
  unfold check_split_tool. destruct (prop tool "title"); [|discriminate].
  cbn [bind]. destruct (negb (truthy (get tool "url"))).
  - intros E; injection E as <-; reflexivity.
  - destruct (get tool "url") as [[| | |u| |]|]; try discriminate.
    destruct (has_protocol u), (includes u REQUIRED_REF);
      intros E; injection E as <-; reflexivity.
Qed.

Lemma check_file_urlMap (st : state) (file : jsstring * option json)
  (st' : state) :
  check_file st file = Normal st' -> urlMap st' = urlMap st.
Proof.
  unfold check_file. destruct (snd file) as [body|]; [|discriminate].
  destruct body;
    try (intros E; injection E as <-; reflexivity).
  intros E.
  refine (forEach_invariant _ (fun s => urlMap s = urlMap st) _ _ _ _ E eq_refl).
  intros s x s' F <-. exact (check_split_tool_urlMap _ _ _ _ F).
Qed.

Lemma check_split_urlMap (st : state) (dir : tools_dir) (st' : state) :
  check_split st dir = Normal st' -> urlMap st' = urlMap st.
Proof.
  destruct dir as [| |entries]; simpl.
  - intros E; injection E as <-; reflexivity.
  - discriminate.
  - intros E.
    refine (forEach_invariant _ (fun s => urlMap s = urlMap st) _ _ _ _ E eq_refl).
    intros s x s' F <-. exact (check_file_urlMap _ _ _ F).
Qed.

(** What a completed run went through. *)
Lemma audit_completed (primary : option json) (dir : tools_dir) (st : state)
  (duplicates : list url_entry) :
  audit primary dir = Completed st duplicates ->
  exists data cats st0,
    primary = Some data
    /\ get data "tools" = Some (JArr cats)
    /\ forEach check_category init cats = Normal st0
    /\ duplicates = find_duplicates (urlMap st0)
    /\ check_split st0 dir = Normal st.
Proof.
  unfold audit. destruct primary as [data|]; [|discriminate].
  unfold prop. destruct data; try discriminate;
    destruct (get _ "tools") as [[| | | |cats|]|] eqn:T; try discriminate.
  unfold traverse.
  destruct (forEach check_category init cats) as [st0|e] eqn:F;
    [|discriminate].
  cbn [bind]. destruct (check_split st0 dir) as [st1|e] eqn:C; [|discriminate].
  cbn [bind]. intros E. injection E as <- <-.
  exists (JObj members), cats, st0. repeat split; try reflexivity; assumption.
Qed.

(** Once an owner is registered under a key, later records keep it. *)
Lemma check_tool_keeps_owner (u : jsstring) (t : toolInfo) (cat : json)
  (st : state) (tool : json) (st' : state) :
  check_tool cat st tool = Normal st' ->
  In t (owners u (urlMap st)) -> In t (owners u (urlMap st')).
Proof.
  unfold check_tool. destruct (trimmed_url tool) as [[[|c k]|]|e];
    cbn [bind]; try discriminate;
    try (intros E; injection E as <-; exact (fun H => H)).
  match goal with |- context [track ?a ?b ?m] =>
    destruct (track_spec a b m) as (m' & -> & G & O) end.
  cbn [bind]. intros E. injection E as <-.
  assert (M : forall x, urlMap
     (if includes (c :: k) REQUIRED_REF
      then if has_protocol (c :: k) then count_tool st
           else push_missing_protocol x (count_tool st)
      else push_missing_ref x
             (if has_protocol (c :: k) then count_tool st
              else push_missing_protocol x (count_tool st)))
     = urlMap st).
  { intros x. destruct (includes _ _), (has_protocol _); reflexivity. }
  rewrite M in G, O. unfold owners. cbn [urlMap set_urlMap].
  destruct (str_eqb u (c :: k)) eqn:K.
  - apply str_eqb_eq in K. subst u. rewrite G. unfold owners.
    intros H. apply in_or_app. left. exact H.
  - apply str_eqb_neq in K. rewrite (O u K). exact (fun H => H).
Qed.

Lemma check_category_keeps_owner (u : jsstring) (t : toolInfo) (st : state)
  (cat : json) (st' : state) :
  check_category st cat = Normal st' ->
  In t (owners u (urlMap st)) -> In t (owners u (urlMap st')).
Proof.
  unfold check_category. destruct (prop cat "content") as [c|e];
    [|discriminate]. cbn [bind].
  destruct c as [[| | | |tools|]|];
    try (intros E; injection E as <-; exact (fun H => H)).
  intros E H.
  refine (forEach_invariant _ (fun s => In t (owners u (urlMap s))) _ _ _ _ E H).
  intros s x s'. apply check_tool_keeps_owner.
Qed.

Lemma check_tool_registers (cat : json) (st : state) (tool : json)
  (s : jsstring) (st' : state) :
  get tool "url" = Some (JStr s) -> trim s <> [] ->
  check_tool cat st tool = Normal st' ->
  In (primary_info cat tool) (owners (trim s) (urlMap st')).
Proof.
  intros U T E.
  destruct (check_tool_with_url cat st tool s U T)
    as (st1 & E1 & _ & _ & _ & _ & _ & G & _).
  rewrite E in E1. injection E1 as <-.
  unfold owners at 1. rewrite G. apply in_or_app. right. left. reflexivity.
Qed.

Lemma check_category_registers (st : state) (cat : json)
  (tools : list json) (tool : json) (s : jsstring) (st' : state) :
  get cat "content" = Some (JArr tools) -> In tool tools ->
  get tool "url" = Some (JStr s) -> trim s <> [] ->
  check_category st cat = Normal st' ->
  In (primary_info cat tool) (owners (trim s) (urlMap st')).
Proof.
  intros C I U T. unfold check_category, prop.
  destruct cat; try discriminate C. rewrite C. cbn [bind]. intros E.
  refine (forEach_reaches _
            (fun x => In _ (owners (trim s) (urlMap x))) tool _ _ _ _ _ I E).
  - intros x y x'. apply check_tool_keeps_owner.
  - intros x x'. apply check_tool_registers; assumption.
Qed.

(** *** The key is the url without its surrounding white space *)

Lemma drop_while_split (p : N -> bool) (s : jsstring) :
  exists dropped,
    s = dropped ++ drop_while p s /\ Forall (fun c => p c = true) dropped.
Proof.
  induction s as [|c s (d & E & F)]; simpl.
  - exists []. split; [reflexivity | constructor].
  - destruct (p c) eqn:P.
    + exists (c :: d). split; [simpl; rewrite <- E; reflexivity|].
      constructor; assumption.
    + exists []. split; [reflexivity | constructor].
Qed.

Lemma drop_while_stops (p : N -> bool) (s : jsstring) (c : N) (r : jsstring) :
  drop_while p s = c :: r -> p c = false.
Proof.
  induction s as [|x s IH]; simpl; [discriminate|].
  destruct (p x) eqn:E; [exact IH|].
  intros H. injection H as <- _. exact E.
Qed.

Lemma drop_while_skips (p : N -> bool) (dropped s : jsstring) :
  Forall (fun c => p c = true) dropped ->
  drop_while p (dropped ++ s) = drop_while p s.
Proof.
  induction 1 as [|c d H F IH]; simpl; [reflexivity|]. rewrite H. exact IH.
Qed.

Lemma drop_while_stays (p : N -> bool) (s : jsstring) :
  (forall c r, s = c :: r -> p c = false) -> drop_while p s = s.
Proof.
  destruct s as [|c s]; [reflexivity|]. intros H. simpl.
  rewrite (H c s eq_refl). reflexivity.
Qed.

Lemma trims_to_trim (s : jsstring) : trims_to s (trim s).
Proof.
  unfold trim.
  destruct (drop_while_split is_space s) as (pre & E1 & F1).
  destruct (drop_while_split is_space (rev (drop_while is_space s)))
    as (post & E2 & F2).
  set (k := rev (drop_while is_space (rev (drop_while is_space s)))).
  assert (D : drop_while is_space s = k ++ rev post).
  { unfold k. rewrite <- rev_app_distr, <- E2. symmetry.
    apply rev_involutive. }
  exists pre, (rev post). repeat split.
  - rewrite <- D. exact E1.
  - exact F1.
  - apply Forall_rev. exact F2.
  - intros c r K. rewrite K in D. simpl in D.
    exact (drop_while_stops _ _ _ _ D).
  - intros c r K. unfold k in K. apply (f_equal (@rev N)) in K.
    rewrite rev_involutive, rev_app_distr in K. simpl in K.
    exact (drop_while_stops _ _ _ _ K).
Qed.

Lemma trims_to_unique (s k : jsstring) : trims_to s k -> trim s = k.
Proof.
  intros (pre & post & -> & F1 & F2 & H1 & H2). unfold trim.
  rewrite (drop_while_skips _ _ _ F1).
  destruct k as [|c r].
  - simpl. rewrite <- (app_nil_r post) at 1.
    rewrite (drop_while_skips _ _ _ F2). reflexivity.
  - rewrite (drop_while_stays is_space ((c :: r) ++ post)).
    + rewrite rev_app_distr.
      rewrite (drop_while_skips _ _ _ (Forall_rev F2)).
      rewrite (drop_while_stays is_space (rev (c :: r)));
        [apply rev_involutive|].
      intros x y E. apply (H2 x (rev y)).
      rewrite <- (rev_involutive (c :: r)), E. reflexivity.
    + intros x y E. simpl in E. injection E as <- _.
      exact (H1 c r eq_refl).
Qed.

(** C6: the url index holds the primary records and nothing else.  The
    key of a record is its url without the white space at its two ends
    (there is exactly one such string, and [trim] computes it).  A
    primary record with a non-empty key is appended to the owners of
    exactly that key, as the object made of its own title, its category's
    name and its own slug, without url, whatever the protocol and marker
    rules said about it, and it is still there when the run completes.
    The split files leave the index as it was, so the index and the
    duplicate groups of a run are those of the same run without any split
    directory. *)
Theorem url_index_holds_primary_records_only :
  ((forall s, trims_to s (trim s))
   /\ (forall s k, trims_to s k -> trim s = k))
  /\ (forall cat st tool s k,
        get tool "url" = Some (JStr s) -> trims_to s k -> k <> [] ->
        exists st' t,
          check_tool cat st tool = Normal st'
          /\ map_get k (urlMap st') = Some (owners k (urlMap st) ++ [t])
          /\ title t = get tool "title"
          /\ category t = get cat "category"
          /\ slug t = get tool "slug"
          /\ url t = None
          /\ forall k', k' <> k ->
               map_get k' (urlMap st') = map_get k' (urlMap st))
  /\ (forall data cats dir st duplicates,
        get data "tools" = Some (JArr cats) ->
        audit (Some data) dir = Completed st duplicates ->
        forall cat tools tool s k,
          In cat cats -> get cat "content" = Some (JArr tools) ->
          In tool tools ->
          get tool "url" = Some (JStr s) -> trims_to s k -> k <> [] ->
          In {| title := get tool "title";
                category := get cat "category";
                slug := get tool "slug";
                url := None |} (owners k (urlMap st)))
  /\ (forall st dir st', check_split st dir = Normal st' ->
                         urlMap st' = urlMap st)
  /\ (forall primary dir st duplicates,
        audit primary dir = Completed st duplicates ->
        exists st0,
          audit primary DirAbsent = Completed st0 duplicates
          /\ urlMap st = urlMap st0)
  /\ (exists st,
        audit (Some padded_dataset) padded_dir = Completed st []
        /\ splitToolsChecked st = 2
        /\ urlMap st
           = [(lit good_a,
               [{| title := Some (str "Alpha");
                   category := Some (str "Writing");
                   slug := Some (str "alpha");
                   url := None |}])]).
Proof.
  split; [split; [exact trims_to_trim | exact trims_to_unique]|].
  split; [|split; [|split; [|split]]].
  - intros cat st tool s k U T K.
    apply trims_to_unique in T. subst k.
    destruct (check_tool_with_url cat st tool s U K)
      as (st' & E & _ & _ & _ & _ & _ & G & O).
    exists st', (primary_info cat tool). repeat split; auto.
  - intros data cats dir st duplicates D A cat tools tool s k Ic C It U T K.
    apply trims_to_unique in T. subst k.
    destruct (audit_completed _ _ _ _ A)
      as (data' & cats' & st0 & P & D' & F & _ & S).
    injection P as <-. rewrite D in D'. injection D' as <-.
    rewrite (check_split_urlMap _ _ _ S).
    change {| title := get tool "title"; category := get cat "category";
              slug := get tool "slug"; url := None |}
      with (primary_info cat tool).
    refine (forEach_reaches _
              (fun x => In _ (owners (trim s) (urlMap x))) cat _ _ _ _ _ Ic F).
    + intros x y x'. apply check_category_keeps_owner.
    + intros x x'. apply (check_category_registers x cat tools); assumption.
  - exact check_split_urlMap.
  - intros primary dir st duplicates A.
    destruct (audit_completed _ _ _ _ A)
      as (data & cats & st0 & -> & D & F & -> & S).
    exists st0. split.
    + rewrite (audit_tools _ _ _ D). unfold traverse. rewrite F. reflexivity.
    + exact (check_split_urlMap _ _ _ S).
  - eexists. repeat split; vm_compute; reflexivity.
Qed.

Lemma url_index_holds_primary_records_only_witness :
  exists st' t,
    check_tool (category_of "Writing" [padded_record]) init padded_record
    = Normal st'
    /\ map_get (lit good_a) (urlMap st') = Some ([] ++ [t])
    /\ title t = Some (str "Alpha")
    /\ category t = Some (str "Writing")
    /\ slug t = Some (str "alpha")
    /\ url t = None.
Proof.
  destruct url_index_holds_primary_records_only as ((T & _) & R & _).
  destruct (R (category_of "Writing" [padded_record]) init padded_record
              (lit padded_a) (lit good_a) eq_refl (T (lit padded_a)))
    as (st' & t & E & G & Ht & Hc & Hs & Hu & _); [discriminate|].
  exists st', t. repeat split; assumption.
Defined.

(** A split file repeating a primary url twice changes neither the index
    nor the duplicate groups. *)
Example split_urls_are_not_indexed :
  exists st,
    audit (Some clean_dataset)
      (DirListing [(lit "writing.json",
                    Some (JArr [record "Alpha" good_a; record "Beta" good_a]))])
    = Completed st []
    /\ splitToolsChecked st = 2
    /\ urlMap st = [(lit good_a,
                     [{| title := Some (str "Alpha");
                         category := Some (str "Writing");
                         slug := undefined; url := None |}])].
Proof. eexists. repeat split; vm_compute; reflexivity. Qed.

(** *** Every url has one entry *)

Lemma keys_map_set (k : jsstring) (v : list toolInfo) (m : url_map) :
  map fst (map_set k v m)
  = if map_has k m then map fst m else map fst m ++ [k].
Proof.
  unfold map_has. induction m as [|[k' v'] m IH]; simpl; [reflexivity|].
  destruct (str_eqb k k'); simpl; [reflexivity|].
  rewrite IH. destruct (map_get k m); reflexivity.
Qed.

Lemma map_has_false (k : jsstring) (m : url_map) :
  map_has k m = false -> ~ In k (map fst m).
Proof.
  unfold map_has. induction m as [|[k' v'] m IH]; simpl; [tauto|].
  destruct (str_eqb k k') eqn:E; [discriminate|].
  apply str_eqb_neq in E. intros H [K|K]; [congruence | exact (IH H K)].
Qed.

Lemma NoDup_snoc (k : jsstring) (l : list jsstring) :
  NoDup l -> ~ In k l -> NoDup (l ++ [k]).
Proof.
  intros D N. apply NoDup_rev in D.
  rewrite <- (rev_involutive (l ++ [k])). apply NoDup_rev.
  rewrite rev_app_distr. simpl. constructor; [|exact D].
  rewrite <- in_rev. exact N.
Qed.

Lemma track_keys (u : jsstring) (t : toolInfo) (m m' : url_map) :
  track u t m = Normal m' -> NoDup (map fst m) -> NoDup (map fst m').
Proof.
  unfold track. cbv zeta. intros E D.
  assert (D1 : NoDup (map fst (if map_has u m then m else map_set u [] m))).
  { destruct (map_has u m) eqn:H; [exact D|].
    rewrite keys_map_set, H. apply NoDup_snoc; [exact D|].
    apply map_has_false, H. }
  destruct (map_get u (if map_has u m then m else map_set u [] m))
    as [o|] eqn:G; [|discriminate E].
  injection E as <-. rewrite keys_map_set. unfold map_has at 1. rewrite G.
  exact D1.
Qed.

Lemma check_tool_keys (cat : json) (st : state) (tool : json) (st' : state) :
  check_tool cat st tool = Normal st' ->
  NoDup (map fst (urlMap st)) -> NoDup (map fst (urlMap st')).
Proof.
  unfold check_tool. destruct (trimmed_url tool) as [[[|c k]|]|e];
    cbn [bind]; try discriminate;
    try (intros E; injection E as <-; exact (fun H => H)).
  match goal with |- context [track ?a ?b ?m] =>
    destruct (track a b m) as [m'|e] eqn:T; [|discriminate];
    assert (M : m = urlMap st)
      by (destruct (includes _ _), (has_protocol _); reflexivity)
  end.
  cbn [bind]. intros E D. injection E as <-. cbn [urlMap set_urlMap].
  rewrite M in T. exact (track_keys _ _ _ _ T D).
Qed.

Lemma check_category_keys (st : state) (cat : json) (st' : state) :
  check_category st cat = Normal st' ->
  NoDup (map fst (urlMap st)) -> NoDup (map fst (urlMap st')).
Proof.
  unfold check_category. destruct (prop cat "content") as [c|e];
    [|discriminate]. cbn [bind].
  destruct c as [[| | | |tools|]|];
    try (intros E; injection E as <-; exact (fun H => H)).
  apply (forEach_invariant _ (fun s => NoDup (map fst (urlMap s)))).
  intros s x s'. apply check_tool_keys.
Qed.

Lemma NoDup_keys_filter (f : url_entry -> bool) (m : url_map) :
  NoDup (map fst m) -> NoDup (map fst (filter f m)).
Proof.
  induction m as [|e m IH]; simpl; [exact (fun H => H)|].
  intros D. inversion D as [|? ? N D']; subst.
  destruct (f e); simpl; [|exact (IH D')].
  constructor; [|exact (IH D')].
  intros I. apply N. apply in_map_iff in I. destruct I as (x & E & I).
  apply in_map_iff. exists x. split; [exact E|].
  apply filter_In in I. exact (proj1 I).
Qed.

(** ** Duplicates *)

Section StableSort.

Context {A : Type} (cmp : A -> A -> Z).

Lemma insert_by_perm (x : A) (l : list A) :
  Permutation (insert_by cmp x l) (x :: l).
Proof.
  induction l as [|y l IH]; simpl; [reflexivity|].
  destruct (Z.ltb 0 (cmp x y)); [|reflexivity].
  rewrite IH. apply perm_swap.
Qed.

Lemma sort_by_perm (l : list A) : Permutation (sort_by cmp l) l.
Proof.
  induction l as [|x l IH]; simpl; [reflexivity|].
  rewrite insert_by_perm. constructor. exact IH.
Qed.

(** What an inserted element passes is filtered out by any test that the
    element meets and that separates it from what compares greater. *)
Lemma filter_insert_by (p : A -> bool) (x : A) (l : list A) :
  (forall y, Z.ltb 0 (cmp x y) = true -> p x = true -> p y = false) ->
  filter p (insert_by cmp x l) = filter p (x :: l).
Proof.
  intros sep. induction l as [|y l IH]; [reflexivity|].
  cbn [insert_by]. destruct (Z.ltb 0 (cmp x y)) eqn:C; [|reflexivity].
  cbn [filter]. rewrite IH. cbn [filter].
  destruct (p x) eqn:Px; [|reflexivity].
  rewrite (sep y C eq_refl). reflexivity.
Qed.

End StableSort.

Lemma by_count_desc_pos (x y : url_entry) :
  Z.ltb 0 (by_count_desc x y) = true <-> count x < count y.
Proof. unfold by_count_desc, count. rewrite Z.ltb_lt. lia. Qed.

Lemma insert_by_count_sorted (x : url_entry) (l : list url_entry) :
  StronglySorted count_desc l ->
  StronglySorted count_desc (insert_by by_count_desc x l).
Proof.
  induction 1 as [|y l S IH F]; simpl.
  - repeat constructor.
  - destruct (Z.ltb 0 (by_count_desc x y)) eqn:C.
    + apply by_count_desc_pos in C. constructor; [exact IH|].
      apply (Permutation_Forall (Permutation_sym (insert_by_perm _ x l))).
      constructor; [unfold count_desc; lia | exact F].
    + assert (count y <= count x).
      { destruct (Nat.le_gt_cases (count y) (count x)) as [L|G]; [exact L|].
        apply by_count_desc_pos in G. congruence. }
      constructor; [constructor; assumption|].
      constructor; [assumption|].
      apply (Forall_impl _ (P := count_desc y)); [|exact F].
      intros z. unfold count_desc. lia.
Qed.

Lemma find_duplicates_sorted (m : url_map) :
  StronglySorted count_desc (find_duplicates m).
Proof.
  unfold find_duplicates, sort_by.
  induction (filter has_many m) as [|x l IH]; simpl; [constructor|].
  apply insert_by_count_sorted. exact IH.
Qed.

Lemma find_duplicates_stable (n : nat) (m : url_map) :
  filter (count_is n) (find_duplicates m)
  = filter (count_is n) (filter has_many m).
Proof.
  unfold find_duplicates, sort_by.
  induction (filter has_many m) as [|x l IH]; [reflexivity|].
  cbn [fold_right]. rewrite filter_insert_by.
  - cbn [filter]. rewrite IH. reflexivity.
  - intros y C Px. apply by_count_desc_pos in C.
    unfold count_is in *. apply Nat.eqb_eq in Px. apply Nat.eqb_neq. lia.
Qed.

Lemma find_duplicates_In (m : url_map) (e : url_entry) :
  In e (find_duplicates m) <-> In e m /\ 1 < count e.
Proof.
  unfold find_duplicates. split.
  - intros H. apply (Permutation_in _ (sort_by_perm _ _)) in H.
    apply filter_In in H. destruct H as [I H]. split; [exact I|].
    apply Nat.ltb_lt. exact H.
  - intros [I H].
    apply (Permutation_in _ (Permutation_sym (sort_by_perm _ _))).
    apply filter_In. split; [exact I|]. apply Nat.ltb_lt. exact H.
Qed.

(** C5: when the run completes, the duplicate groups are exactly the
    entries of the url index with more than one owner, one group per url;
    no group comes before one with more owners; and groups with the same
    number of owners stand in the order their urls entered the index. *)
Theorem duplicates_are_repeated_urls_by_count (primary : option json)
  (dir : tools_dir) (st : state) (duplicates : list url_entry) :
  audit primary dir = Completed st duplicates ->
  (forall e, In e duplicates <-> In e (urlMap st) /\ 1 < count e)
  /\ Permutation duplicates (filter has_many (urlMap st))
  /\ NoDup (map fst duplicates)
  /\ StronglySorted count_desc duplicates
  /\ (forall n, filter (count_is n) duplicates
                = filter (count_is n) (filter has_many (urlMap st))).
Proof.
  intros H.
  destruct (audit_completed _ _ _ _ H)
    as (data & cats & st0 & _ & _ & F & -> & S).
  rewrite (check_split_urlMap _ _ _ S).
  split; [|split; [|split; [|split]]].
  - apply find_duplicates_In.
  - apply sort_by_perm.
  - apply (Permutation_NoDup
             (Permutation_map fst (Permutation_sym (sort_by_perm _ _)))).
    apply NoDup_keys_filter.
    refine (forEach_invariant _ (fun s => NoDup (map fst (urlMap s)))
              _ _ _ _ F (NoDup_nil _)).
    intros s x s'. apply check_category_keys.
  - apply find_duplicates_sorted.
  - intros n. apply find_duplicates_stable.
Qed.

Lemma duplicates_are_repeated_urls_by_count_witness :
  exists st duplicates,
    audit (Some three_and_two) DirAbsent = Completed st duplicates
    /\ map fst (urlMap st) = [lit good_b; lit good_a]
    /\ map (fun e => (fst e, count e)) duplicates
       = [(lit good_a, 3); (lit good_b, 2)]
    /\ StronglySorted count_desc duplicates
    /\ forall n, filter (count_is n) duplicates
                 = filter (count_is n) (filter has_many (urlMap st)).
Proof.
  destruct (audit (Some three_and_two) DirAbsent) as [|e|st d] eqn:E;
    try (vm_compute in E; discriminate E).
  pose proof (duplicates_are_repeated_urls_by_count _ _ _ _ E)
    as (_ & _ & _ & S & F).
  exists st, d. split; [reflexivity|].
  vm_compute in E. injection E as <- <-.
  split; [reflexivity|]. split; [reflexivity|]. split; [exact S | exact F].
Defined.

(** The report of the same dataset: the group of three is listed first,
    and the summary counts the two groups, not the five records. *)
Example three_and_two_report :
  main (Some three_and_two) DirAbsent
  = {| stdout :=
         [Title; Rule; TotalTools 5 None; UniqueUrls 2;
          DuplicateHead 2;
          DuplicateUrl 1 (lit good_a); DuplicateCount 3;
          DuplicateItem 1 (Some (str "A1")) undefined (Some (str "One"));
          DuplicateItem 2 (Some (str "A2")) undefined (Some (str "Two"));
          DuplicateItem 3 (Some (str "A3")) undefined (Some (str "Two"));
          DuplicateUrl 2 (lit good_b); DuplicateCount 2;
          DuplicateItem 1 (Some (str "B1")) undefined (Some (str "One"));
          DuplicateItem 2 (Some (str "B2")) undefined (Some (str "Two"));
          Blank; Rule; Summary 2];
       stderr := []; exit_code := 1 |}.
Proof. vm_compute. reflexivity. Qed.

(** Ties keep the order of first appearance: with two urls of two records
    each, the one met first is listed first. *)
Example duplicate_ties_keep_insertion_order :
  exists st duplicates,
    audit (Some (dataset [category_of "One"
                            [record "B1" good_b; record "A1" good_a;
                             record "A2" good_a; record "B2" good_b]]))
      DirAbsent
    = Completed st duplicates
    /\ map (fun e => (fst e, count e)) duplicates
       = [(lit good_b, 2); (lit good_a, 2)].
Proof. eexists. eexists. split; vm_compute; reflexivity. Qed.

(** ** The slug generator *)

Lemma Forall_drop_while (P : N -> Prop) (p : N -> bool) (s : jsstring) :
  Forall P s -> Forall P (drop_while p s).
Proof.
  induction 1 as [|c s Pc F IH]; simpl; [constructor|].
  destruct (p c); [exact IH | constructor; assumption].
Qed.

Lemma drop_while_suffix (p : N -> bool) (s : jsstring) :
  exists dropped, s = dropped ++ drop_while p s.
Proof.
  induction s as [|c s [d IH]]; simpl.
  - exists []; reflexivity.
  - destruct (p c).
    + exists (c :: d). simpl. rewrite <- IH. reflexivity.
    + exists []. reflexivity.
Qed.

Lemma drop_while_head (p : N -> bool) (s : jsstring) (c : N) (r : jsstring) :
  drop_while p s = c :: r -> p c = false.
Proof.
  induction s as [|x s IH]; simpl; [discriminate|].
  destruct (p x) eqn:E; [exact IH|].
  intros H. injection H as <- _. exact E.
Qed.

Lemma strip_trailing_prefix (s : jsstring) :
  exists dropped, s = strip_trailing_hyphens s ++ dropped.
Proof.
  unfold strip_trailing_hyphens.
  destruct (drop_while_suffix is_hyphen (rev s)) as [d H].
  exists (rev d). rewrite <- rev_app_distr, <- H, rev_involutive. reflexivity.
Qed.

Lemma Forall_trim (P : N -> Prop) (s : jsstring) :
  Forall P s -> Forall P (trim s).
Proof.
  intros F. unfold trim.
  apply Forall_rev, Forall_drop_while, Forall_rev, Forall_drop_while, F.
Qed.

Lemma flush_cases (least : nat) (rep run : jsstring) :
  flush least rep run = [] \/ flush least rep run = rep
  \/ flush least rep run = run.
Proof.
  unfold flush. destruct run; [left; reflexivity|].
  destruct (Nat.leb least _); [right; left | right; right]; reflexivity.
Qed.

Lemma replace_runs_Forall (P : N -> Prop) (C : N -> bool) (least : nat)
  (rep s : jsstring) :
  Forall P rep -> Forall P s ->
  forall run, Forall P run -> Forall P (replace_runs C least rep run s).
Proof.
  intros Fr Fs. induction Fs as [|c s Pc Fs IH]; intros run Fn; simpl.
  - destruct (flush_cases least rep run) as [-> | [-> | ->]]; auto.
  - destruct (C c).
    + apply IH. apply Forall_app. split; [exact Fn | repeat constructor; exact Pc].
    + apply Forall_app. split.
      * destruct (flush_cases least rep run) as [-> | [-> | ->]]; auto.
      * constructor; [exact Pc | apply IH; constructor].
Qed.

(** The scan with a pending run computes the run-by-run replacement,
    whenever a finished run is always replaced by [rep]. *)
Lemma replace_runs_collapse (C : N -> bool) (least : nat) (rep : jsstring) :
  (forall run, run <> [] -> Forall (fun c => C c = true) run ->
               flush least rep run = rep) ->
  forall s run,
    Forall (fun c => C c = true) run ->
    replace_runs C least rep run s
    = match run with
      | [] => collapse_runs C rep false s
      | _ :: _ => rep ++ collapse_runs C rep true s
      end.
Proof.
  intros fl s. induction s as [|c s IH]; intros run Fn; simpl.
  - destruct run as [|x r]; [reflexivity|].
    rewrite app_nil_r. apply fl; [discriminate | exact Fn].
  - destruct (C c) eqn:Cc.
    + rewrite IH
        by (apply Forall_app; split; [exact Fn | repeat constructor; exact Cc]).
      destruct run; reflexivity.
    + rewrite (IH [] (Forall_nil _)).
      destruct run as [|x r]; [reflexivity|].
      rewrite (fl (x :: r)) by (discriminate || exact Fn). reflexivity.
Qed.

Lemma flush_one (rep run : jsstring) : run <> [] -> flush 1 rep run = rep.
Proof. destruct run; [contradiction | reflexivity]. Qed.

Lemma flush_hyphens (run : jsstring) :
  run <> [] -> Forall (fun c => is_hyphen c = true) run ->
  flush 2 [hyphen] run = [hyphen].
Proof.
  destruct run as [|x [|y r]]; [contradiction | | reflexivity].
  intros _ F. inversion F as [|? ? Hx _]; subst.
  apply N.eqb_eq in Hx. subst x. reflexivity.
Qed.

Lemma replace_spaces (s : jsstring) :
  replace_all is_space 1 [hyphen] s = spaces_to_hyphens s.
Proof.
  unfold replace_all.
  rewrite (replace_runs_collapse is_space 1 [hyphen]); [reflexivity | | constructor].
  intros run N _. apply flush_one, N.
Qed.

Lemma collapse_to_nothing (C : N -> bool) (inside : bool) (s : jsstring) :
  collapse_runs C [] inside s = filter (fun c => negb (C c)) s.
Proof.
  revert inside; induction s as [|c s IH]; intros inside; simpl; [reflexivity|].
  destruct (C c); simpl; rewrite IH; destruct inside; reflexivity.
Qed.

Lemma replace_stripped (s : jsstring) :
  replace_all is_stripped 1 [] s = keep_word_and_hyphen s.
Proof.
  unfold replace_all, keep_word_and_hyphen.
  rewrite (replace_runs_collapse is_stripped 1 []).
  - rewrite collapse_to_nothing. apply filter_ext.
    intros c. unfold is_stripped. apply negb_involutive.
  - intros run N _. apply flush_one, N.
  - constructor.
Qed.

Lemma replace_hyphens (s : jsstring) :
  replace_all is_hyphen 2 [hyphen] s = squeeze_hyphens s.
Proof.
  unfold replace_all.
  rewrite (replace_runs_collapse is_hyphen 2 [hyphen]); [reflexivity | | constructor].
  exact flush_hyphens.
Qed.

Lemma collapse_runs_Forall (P : N -> Prop) (C : N -> bool) (rep : jsstring)
  (s : jsstring) :
  Forall P rep -> Forall P s ->
  forall inside, Forall P (collapse_runs C rep inside s).
Proof.
  intros Fr Fs. induction Fs as [|c s Pc Fs IH]; intros inside; simpl;
    [constructor|].
  destruct (C c).
  - apply Forall_app. split; [destruct inside; auto | apply IH].
  - constructor; [exact Pc | apply IH].
Qed.

(** After squeezing, no hyphen follows a hyphen, and nothing that follows
    a hyphen of the input starts with one. *)
Lemma squeeze_no_double (s : jsstring) (inside : bool) :
  (forall a b, collapse_runs is_hyphen [hyphen] inside s
               <> a ++ hyphen :: hyphen :: b)
  /\ (inside = true ->
      forall r, collapse_runs is_hyphen [hyphen] inside s <> hyphen :: r).
Proof.
  revert inside; induction s as [|c s IH]; intros inside; simpl.
  - split; [intros [|? ?] b H; discriminate H | intros _ r H; discriminate H].
  - destruct (is_hyphen c) eqn:Hc.
    + destruct (IH true) as [D S]. destruct inside; simpl.
      * split; [exact D | intros _; exact (S eq_refl)].
      * split; [|discriminate].
        intros [|x a] b H; simpl in H.
        -- assert (H2 := f_equal (@tl N) H). simpl in H2.
           exact (S eq_refl _ H2).
        -- assert (H2 := f_equal (@tl N) H). simpl in H2.
           exact (D _ _ H2).
    + destruct (IH false) as [D _]. split.
      * intros [|x a] b H; simpl in H.
        -- assert (H1 : c = hyphen) by congruence.
           subst c. discriminate Hc.
        -- assert (H2 := f_equal (@tl N) H). simpl in H2.
           exact (D _ _ H2).
      * intros _ r H. assert (H1 : c = hyphen) by congruence.
        subst c. discriminate Hc.
Qed.

Lemma slug_unit_of_kept (c : N) :
  is_upper c = false -> is_word c || is_hyphen c = true ->
  is_slug_unit c = true.
Proof.
  unfold is_word, is_slug_unit. intros ->. simpl. exact (fun H => H).
Qed.

Lemma lower_ascii_no_upper (s : jsstring) :
  Forall (fun c => is_upper c = false) (lower_ascii s).
Proof.
  unfold lower_ascii. apply Forall_forall. intros y H.
  apply in_map_iff in H. destruct H as (c & <- & _).
  destruct (is_upper c) eqn:U; [|exact U].
  unfold is_upper in *. apply andb_true_iff in U. destruct U as [L R].
  apply N.leb_le in L, R. apply andb_false_iff. right.
  apply N.leb_gt. lia.
Qed.

Section SlugifyShape.

Variable toLowerCase : jsstring -> jsstring.

(** The one fact about the engine's case mapping that the slug relies on:
    no [A-Z] is left in a lowercased string. *)
Hypothesis toLowerCase_no_upper :
  forall s, Forall (fun c => is_upper c = false) (toLowerCase s).

(** C9: [slugify] is the chain lowercase, trim, whitespace runs to one
    hyphen each, drop every unit that is neither a word character nor a
    hyphen, squeeze hyphen runs to one hyphen, strip the hyphens at both
    ends; its result is made of [a-z], [0-9], [_] and hyphens only, does
    not begin or end with a hyphen and has no two hyphens in a row. *)
Theorem slugify_gives_a_slug (text : jsstring) :
  slugify toLowerCase text
  = strip_trailing_hyphens
      (strip_leading_hyphens
         (squeeze_hyphens
            (keep_word_and_hyphen
               (spaces_to_hyphens (trim (toLowerCase text))))))
  /\ Forall (fun c => is_slug_unit c = true) (slugify toLowerCase text)
  /\ (forall rest, slugify toLowerCase text <> hyphen :: rest)
  /\ (forall rest, slugify toLowerCase text <> rest ++ [hyphen])
  /\ (forall a b, slugify toLowerCase text <> a ++ hyphen :: hyphen :: b).
Proof.
  assert (E : slugify toLowerCase text
              = strip_trailing_hyphens
                  (strip_leading_hyphens
                     (squeeze_hyphens
                        (keep_word_and_hyphen
                           (spaces_to_hyphens (trim (toLowerCase text))))))).
  { unfold slugify.
    rewrite replace_spaces, replace_stripped, replace_hyphens. reflexivity. }
  split; [exact E|]. rewrite E.
  set (s3 := spaces_to_hyphens (trim (toLowerCase text))).
  set (s5 := squeeze_hyphens (keep_word_and_hyphen s3)).
  set (s6 := strip_leading_hyphens s5).
  assert (F3 : Forall (fun c => is_upper c = false) s3).
  { apply collapse_runs_Forall; [repeat constructor|].
    apply Forall_trim, toLowerCase_no_upper. }
  assert (F5 : Forall (fun c => is_slug_unit c = true) s5).
  { apply collapse_runs_Forall; [repeat constructor|].
    apply Forall_forall. intros c I. apply filter_In in I.
    destruct I as [I K]. apply slug_unit_of_kept; [|exact K].
    exact (proj1 (Forall_forall _ _) F3 c I). }
  destruct (drop_while_suffix is_hyphen s5) as [d5 H5].
  fold (strip_leading_hyphens s5) in H5. fold s6 in H5.
  destruct (strip_trailing_prefix s6) as [d6 H6].
  assert (F6 : Forall (fun c => is_slug_unit c = true) s6).
  { rewrite H5 in F5. apply Forall_app in F5. exact (proj2 F5). }
  split; [|split; [|split]].
  - rewrite H6 in F6. apply Forall_app in F6. exact (proj1 F6).
  - intros rest H. rewrite H in H6. simpl in H6.
    assert (is_hyphen hyphen = false) as X
      by exact (drop_while_head is_hyphen s5 _ _ H6).
    discriminate X.
  - intros rest H. unfold strip_trailing_hyphens in H.
    apply (f_equal (@rev N)) in H.
    rewrite rev_involutive, rev_app_distr in H. simpl in H.
    assert (is_hyphen hyphen = false) as X
      by exact (drop_while_head is_hyphen _ _ _ H).
    discriminate X.
  - intros a b H.
    destruct (squeeze_no_double (keep_word_and_hyphen s3) false) as [D _].
    apply (D (d5 ++ a) (b ++ d6)).
    fold (squeeze_hyphens (keep_word_and_hyphen s3)). fold s5.
    rewrite H5, H6, H, <- !app_assoc. reflexivity.
Qed.

End SlugifyShape.

Lemma slugify_gives_a_slug_witness :
  slugify lower_ascii (lit "  Hello,  World -- 2!  ") = lit "hello-world-2"
  /\ Forall (fun c => is_slug_unit c = true)
       (slugify lower_ascii (lit "  Hello,  World -- 2!  "))
  /\ (forall a b, slugify lower_ascii (lit "  Hello,  World -- 2!  ")
                  <> a ++ hyphen :: hyphen :: b).
Proof.
  pose proof (slugify_gives_a_slug lower_ascii lower_ascii_no_upper
                (lit "  Hello,  World -- 2!  ")) as (_ & F & _ & _ & D).
  split; [vm_compute; reflexivity|]. split; [exact F | exact D].
Defined.

(** * Further properties of the validator *)

Import Stream.

(** ** When the traversal completes *)

Lemma forEach_completes {A S} (f : S -> A -> completion S) (ok : A -> bool) :
  (forall st x,
     if ok x then exists st', f st x = Normal st'
     else exists e, f st x = Throw e) ->
  forall l st,
    if forallb ok l then exists st', forEach f st l = Normal st'
    else exists e, forEach f st l = Throw e.
Proof.
  intros step l. induction l as [|x l IH]; intros st; simpl.
  - eexists; reflexivity.
  - specialize (step st x). destruct (ok x); simpl.
    + destruct step as [st1 ->]. cbn [bind]. apply IH.
    + destruct step as [e ->]. exists e. reflexivity.
Qed.

Lemma extends_nil (st : state) : extends st st [].
Proof. unfold extends. simpl. rewrite !app_nil_r, Nat.add_0_r. tauto. Qed.

Lemma extends_app (a b c : state) (r1 r2 : list (json * json)) :
  extends a b r1 -> extends b c r2 -> extends a c (r1 ++ r2).
Proof.
  unfold extends. intros (A1 & A2 & A3 & A4 & A5) (B1 & B2 & B3 & B4 & B5).
  rewrite !filter_app, !map_app, !app_assoc, length_app.
  rewrite B1, B2, B3, B4, B5, A1, A2, A3, A4, A5.
  repeat split; try reflexivity. lia.
Qed.

Lemma check_tool_bad (cat : json) (st : state) (tool : json) :
  tool_ok tool = false -> check_tool cat st tool = Throw TypeError.
Proof.
  unfold tool_ok, check_tool, trimmed_url, prop.
  destruct tool; try reflexivity;
    destruct (get _ "url") as [[| | | | |]|]; try discriminate; reflexivity.
Qed.

Lemma check_tool_good (cat : json) (st : state) (tool : json) :
  tool_ok tool = true ->
  exists st', check_tool cat st tool = Normal st'
              /\ extends st st' [(cat, tool)].
Proof.
  intros K.
  assert (NN : tool <> JNull) by (intros ->; discriminate K).
  assert (B : (get tool "url" = undefined \/ get tool "url" = Some JNull
               \/ exists s, get tool "url" = Some (JStr s) /\ trim s = [])
              \/ exists s, get tool "url" = Some (JStr s) /\ trim s <> []).
  { unfold tool_ok in K.
    destruct tool as [|b0|x0|s0|l0|ms0]; try contradiction;
      destruct (get _ "url") as [[| | |s| |]|]; try discriminate K; auto;
      (destruct (trim s) eqn:T; [left; right; right; eauto
                                | right; exists s; split; congruence]). }
  destruct B as [B | (s & U & T)].
  - rewrite (check_tool_without_url cat st tool NN B). eexists.
    split; [reflexivity|].
    assert (X : url_text tool = []).
    { unfold url_text. destruct B as [-> | [-> | (s & -> & T)]]; auto. }
    unfold extends, is_blank, lacks_protocol, lacks_ref, is_blank.
    cbn [filter snd]. rewrite X. cbn. rewrite !app_nil_r.
    repeat split; try reflexivity.
    symmetry. apply Nat.add_1_r.
  - destruct (check_tool_with_url cat st tool s U T)
      as (st' & E & Hu & Hp & Hr & Hi & Ht & _).
    exists st'. split; [exact E|].
    assert (X : url_text tool = trim s) by (unfold url_text; rewrite U; reflexivity).
    assert (Z : str_eqb (trim s) [] = false) by (apply str_eqb_neq, T).
    unfold extends, is_blank, lacks_protocol, lacks_ref, is_blank,
      info_with_url, info_of.
    cbn [filter snd fst]. rewrite X, Z, Hu, Hp, Hr, Hi, Ht. cbn [negb andb].
    destruct (has_protocol (trim s)), (includes (trim s) REQUIRED_REF);
      cbn; rewrite ?app_nil_r, ?X; repeat split; try reflexivity;
      symmetry; apply Nat.add_1_r.
Qed.

Lemma forEach_check_tool (cat : json) (tools : list json) (st : state) :
  if forallb tool_ok tools
  then exists st', forEach (check_tool cat) st tools = Normal st'
                   /\ extends st st' (map (pair cat) tools)
  else forEach (check_tool cat) st tools = Throw TypeError.
Proof.
  revert st; induction tools as [|tool tools IH]; intros st; simpl.
  - exists st. split; [reflexivity | apply extends_nil].
  - destruct (tool_ok tool) eqn:O; simpl.
    + destruct (check_tool_good cat st tool O) as (st1 & -> & X1).
      cbn [bind]. specialize (IH st1).
      destruct (forallb tool_ok tools); [|exact IH].
      destruct IH as (st2 & E & X2). exists st2. split; [exact E|].
      exact (extends_app _ _ _ [(cat, tool)] _ X1 X2).
    + rewrite (check_tool_bad cat st tool O). reflexivity.
Qed.

Lemma check_category_outcome (st : state) (cat : json) :
  if category_ok cat
  then exists st', check_category st cat = Normal st'
                   /\ extends st st' (map (pair cat) (records_of cat))
  else check_category st cat = Throw TypeError.
Proof.
  unfold category_ok, check_category, records_of, prop.
  destruct cat; try reflexivity; cbn [bind];
    destruct (get _ "content") as [[| | | |tools|]|];
    cbn [forallb map];
    try (exists st; split; [reflexivity | apply extends_nil]);
    apply forEach_check_tool.
Qed.

Lemma forEach_check_category (cats : list json) (st : state) :
  if forallb category_ok cats
  then exists st', forEach check_category st cats = Normal st'
                   /\ extends st st' (stream cats)
  else forEach check_category st cats = Throw TypeError.
Proof.
  revert st; induction cats as [|cat cats IH]; intros st; simpl.
  - exists st. split; [reflexivity | apply extends_nil].
  - pose proof (check_category_outcome st cat) as C.
    destruct (category_ok cat); simpl.
    + destruct C as (st1 & -> & X1). cbn [bind]. specialize (IH st1).
      destruct (forallb category_ok cats); [|exact IH].
      destruct IH as (st2 & E & X2). exists st2. split; [exact E|].
      exact (extends_app _ _ _ _ _ X1 X2).
    + rewrite C. reflexivity.
Qed.

(** X1: for a primary dataset whose categories and records can all be
    examined, the run without split files completes, counts every record
    of every array [content], and each bucket holds exactly the records
    its rule selects, in traversal order: [missing_url] those whose
    trimmed url is empty or absent, [missing_protocol] and [missing_ref]
    those with a url that fails the respective test. *)
Theorem primary_buckets_are_filters (data : json) (cats : list json) :
  get data "tools" = Some (JArr cats) ->
  forallb category_ok cats = true ->
  exists st,
    audit (Some data) DirAbsent = Completed st (find_duplicates (urlMap st))
    /\ totalTools st = length (stream cats)
    /\ missing_url (issues st) = map info_of (filter is_blank (stream cats))
    /\ missing_protocol (issues st)
       = map info_with_url (filter lacks_protocol (stream cats))
    /\ missing_ref (issues st)
       = map info_with_url (filter lacks_ref (stream cats))
    /\ invalid_structure (issues st) = [].
Proof.
  intros T O. rewrite (audit_tools _ _ _ T). unfold traverse.
  pose proof (forEach_check_category cats init) as F. rewrite O in F.
  destruct F as (st & -> & X1 & X2 & X3 & X4 & X5).
  exists st. split; [reflexivity|]. cbn in X1, X2, X3, X4, X5. auto.
Qed.

Lemma primary_buckets_are_filters_witness :
  exists st,
    audit (Some mixed_dataset) DirAbsent
    = Completed st (find_duplicates (urlMap st))
    /\ totalTools st = 3
    /\ map title (missing_url (issues st)) = [Some (str "NoUrl")]
    /\ map title (missing_protocol (issues st)) = []
    /\ map title (missing_ref (issues st)) = [Some (str "NoRef")].
Proof.
  destruct (primary_buckets_are_filters mixed_dataset
              [category_of "Dev"
                 [JObj [(lit "title", str "NoUrl")];
                  record "NoRef" "https://x.com";
                  record "Fine" good_a]] eq_refl eq_refl)
    as (st & A & T & U & P & R & _).
  exists st. split; [exact A|]. rewrite T, U, P, R.
  repeat split; vm_compute; reflexivity.
Defined.

Lemma check_split_tool_outcome (name : jsstring) (st : state) (tool : json) :
  if split_tool_ok tool
  then exists st', check_split_tool name st tool = Normal st'
  else exists e, check_split_tool name st tool = Throw e.
Proof.
  unfold split_tool_ok, check_split_tool, prop.
  destruct tool; try (exists TypeError; reflexivity); cbn [bind];
    destruct (truthy (get _ "url")); cbn [negb orb];
    try (eexists; reflexivity);
    destruct (get _ "url") as [[| | | | |]|]; eexists; reflexivity.
Qed.

Lemma check_file_outcome (st : state) (file : jsstring * option json) :
  if file_ok file
  then exists st', check_file st file = Normal st'
  else exists e, check_file st file = Throw e.
Proof.
  unfold file_ok, check_file.
  destruct (snd file) as [[| | | |tools|]|]; try (eexists; reflexivity).
  apply (forEach_completes _ split_tool_ok). intros s x.
  apply check_split_tool_outcome.
Qed.

Lemma check_split_outcome (st : state) (dir : tools_dir) :
  if dir_ok dir
  then exists st', check_split st dir = Normal st'
  else exists e, check_split st dir = Throw e.
Proof.
  destruct dir as [| |entries]; simpl; try (eexists; reflexivity).
  apply (forEach_completes _ file_ok). intros s x. apply check_file_outcome.
Qed.

(** X2: the run gets to its report exactly when [tools.json] parses to a
    root with an array under [tools], no category and no record of an
    array [content] is [null], every primary url is absent, [null] or a
    string, the split directory (if any) can be listed, each of its
    [.json] files parses, and no record of an array body is [null] or has
    a truthy url that is not a string.  In every other case the run ends
    in a diagnostic without a report. *)
Theorem audit_completes_iff (primary : option json) (dir : tools_dir) :
  ((exists st duplicates, audit primary dir = Completed st duplicates)
   <-> (exists data cats,
          primary = Some data
          /\ get data "tools" = Some (JArr cats)
          /\ forallb category_ok cats = true
          /\ dir_ok dir = true))
  /\ ((exists st duplicates, audit primary dir = Completed st duplicates)
      \/ exists diagnostic,
           main primary dir
           = {| stdout := []; stderr := [diagnostic]; exit_code := 1 |}).
Proof.
  split; [|unfold main; destruct (audit primary dir); eauto].
  split.
  - intros (st & d & A).
    destruct (audit_completed _ _ _ _ A)
      as (data & cats & st0 & -> & T & F & _ & C).
    exists data, cats. repeat split; [exact T | |].
    + pose proof (forEach_check_category cats init) as X.
      destruct (forallb category_ok cats); [reflexivity|].
      rewrite F in X. discriminate X.
    + pose proof (check_split_outcome st0 dir) as X.
      destruct (dir_ok dir); [reflexivity|].
      destruct X as [e X]. rewrite C in X. discriminate X.
  - intros (data & cats & -> & T & Oc & Od).
    rewrite (audit_tools _ _ _ T). unfold traverse.
    pose proof (forEach_check_category cats init) as X. rewrite Oc in X.
    destruct X as (st0 & -> & _). cbn [bind].
    pose proof (check_split_outcome st0 dir) as Y. rewrite Od in Y.
    destruct Y as (st & ->). cbn [bind]. eauto.
Qed.

(** A [null] record after a flagged one: the run raises and the finding
    already collected is not reported. *)
Example null_record_hides_findings :
  forallb category_ok
    [category_of "Dev" [record "Ftp" "ftp://x.com"; JNull]] = false
  /\ main (Some null_record_dataset) DirAbsent
     = {| stdout := []; stderr := [ErrorReading TypeError]; exit_code := 1 |}.
Proof. split; vm_compute; reflexivity. Qed.

(** ** What one record does to the state *)

Ltac state_fields :=
  cbn [issues missing_url missing_protocol missing_ref invalid_structure
       urlMap totalTools splitToolsChecked push_missing_url
       push_missing_protocol push_missing_ref push_invalid_structure
       set_urlMap count_tool count_split_tool].

Lemma check_tool_cases (cat : json) (st : state) (tool : json) (st' : state) :
  check_tool cat st tool = Normal st' ->
  totalTools st' = S (totalTools st)
  /\ splitToolsChecked st' = splitToolsChecked st
  /\ invalid_structure (issues st') = invalid_structure (issues st)
  /\ ((missing_url (issues st')
       = missing_url (issues st) ++ [primary_info cat tool]
       /\ missing_protocol (issues st') = missing_protocol (issues st)
       /\ missing_ref (issues st') = missing_ref (issues st)
       /\ urlMap st' = urlMap st)
      \/ exists s,
           get tool "url" = Some (JStr s) /\ trim s <> []
           /\ missing_url (issues st') = missing_url (issues st)
           /\ missing_protocol (issues st')
              = (if has_protocol (trim s) then missing_protocol (issues st)
                 else missing_protocol (issues st)
                      ++ [with_url (primary_info cat tool) (trim s)])
           /\ missing_ref (issues st')
              = (if includes (trim s) REQUIRED_REF
                 then missing_ref (issues st)
                 else missing_ref (issues st)
                      ++ [with_url (primary_info cat tool) (trim s)])
           /\ track (trim s) (primary_info cat tool) (urlMap st)
              = Normal (urlMap st')).
Proof.
  unfold check_tool, trimmed_url, prop.
  destruct tool as [|b0|x0|s0|l0|ms0]; try discriminate; cbn [bind];
    destruct (get _ "url") as [[| | |s| |]|] eqn:U; try discriminate;
    cbn [bind];
    try (intros E; injection E as <-; cbn;
         repeat split; left; repeat split; reflexivity);
    (destruct (trim s) as [|c k] eqn:T;
     [intros E; injection E as <-; cbn;
      repeat split; left; repeat split; reflexivity|]);
    destruct (has_protocol (c :: k)) eqn:Hp,
             (includes (c :: k) REQUIRED_REF) eqn:Hr; cbn [urlMap];
    match goal with
    | |- context [track ?a ?b ?m] =>
        change m with (urlMap st); destruct (track a b (urlMap st)) eqn:K
    end; cbn [bind]; try discriminate;
    intros E; injection E as <-; state_fields;
    repeat split; right; exists s; rewrite T, Hp, Hr;
    repeat split; try reflexivity; try discriminate; exact K.
Qed.

Lemma check_split_tool_cases (name : jsstring) (st : state) (tool : json)
  (st' : state) :
  check_split_tool name st tool = Normal st' ->
  totalTools st' = totalTools st
  /\ splitToolsChecked st' = S (splitToolsChecked st)
  /\ invalid_structure (issues st') = invalid_structure (issues st)
  /\ urlMap st' = urlMap st
  /\ ((truthy (get tool "url") = false
       /\ missing_url (issues st')
          = missing_url (issues st) ++ [split_info name tool]
       /\ missing_protocol (issues st') = missing_protocol (issues st)
       /\ missing_ref (issues st') = missing_ref (issues st))
      \/ exists s,
           get tool "url" = Some (JStr s) /\ s <> []
           /\ missing_url (issues st') = missing_url (issues st)
           /\ missing_protocol (issues st')
              = (if has_protocol s then missing_protocol (issues st)
                 else missing_protocol (issues st) ++ [split_info name tool])
           /\ missing_ref (issues st')
              = (if includes s REQUIRED_REF then missing_ref (issues st)
                 else missing_ref (issues st) ++ [split_info name tool])).
Proof.
  unfold check_split_tool, prop.
  destruct tool as [|b0|x0|s0|l0|ms0]; try discriminate; cbn [bind];
    (destruct (truthy (get _ "url")) eqn:Tr; cbn [negb];
     [|intros E; injection E as <-; state_fields;
       repeat split; left; repeat split; reflexivity]);
    destruct (get _ "url") as [[| | |s| |]|] eqn:U; try discriminate;
    (assert (s <> []) by (intros ->; discriminate Tr));
    destruct (has_protocol s) eqn:Hp, (includes s REQUIRED_REF) eqn:Hr;
    intros E; injection E as <-; state_fields;
    repeat split; right; exists s; rewrite ?Hp, ?Hr;
    repeat split; try reflexivity; assumption.
Qed.

(** A property of the state that every step keeps holds when the run
    completes. *)
Lemma audit_invariant (P : state -> Prop) :
  P init ->
  (forall cat st tool st', check_tool cat st tool = Normal st' -> P st -> P st') ->
  (forall name st tool st',
     check_split_tool name st tool = Normal st' -> P st -> P st') ->
  (forall i st, P st -> P (push_invalid_structure i st)) ->
  forall primary dir st duplicates,
    audit primary dir = Completed st duplicates -> P st.
Proof.
  intros P0 Pt Ps Pi primary dir st d A.
  destruct (audit_completed _ _ _ _ A)
    as (data & cats & st0 & _ & _ & F & _ & C).
  assert (P st0) as P1.
  { refine (forEach_invariant _ P _ _ _ _ F P0).
    intros s cat s'. unfold check_category.
    destruct (prop cat "content") as [c|e]; [|discriminate]. cbn [bind].
    destruct c as [[| | | |tools|]|];
      try (intros E; injection E as <-; exact (fun H => H)).
    apply forEach_invariant. apply Pt. }
  destruct dir as [| |entries]; simpl in C.
  - injection C as <-. exact P1.
  - discriminate C.
  - refine (forEach_invariant _ P _ _ _ _ C P1).
    intros s file s'. unfold check_file.
    destruct (snd file) as [body|]; [|discriminate].
    destruct body; try (intros E; injection E as <-; apply Pi).
    apply forEach_invariant. apply Ps.
Qed.

(** ** Counting records and owners *)

Lemma owner_total_map_set (k : jsstring) (v : list toolInfo) (m : url_map) :
  owner_total (map_set k v m) + length (owners k m)
  = owner_total m + length v.
Proof.
  unfold owner_total, owners.
  induction m as [|[k' v'] m IH]; simpl; [unfold count; simpl; lia|].
  destruct (str_eqb k k'); simpl; unfold count in *; simpl in *; lia.
Qed.

Lemma track_total (u : jsstring) (t : toolInfo) (m m' : url_map) :
  track u t m = Normal m' -> owner_total m' = S (owner_total m).
Proof.
  unfold track. cbv zeta.
  set (m1 := if map_has u m then m else map_set u [] m).
  assert (T1 : owner_total m1 = owner_total m).
  { unfold m1, map_has.
    pose proof (owner_total_map_set u [] m) as X. unfold owners in X.
    destruct (map_get u m); [reflexivity|]. simpl in X. lia. }
  pose proof (owner_total_map_set u (owners u m1 ++ [t]) m1) as X.
  unfold owners in X |- *.
  destruct (map_get u m1) as [o|]; [|discriminate].
  intros E. injection E as <-. rewrite length_app in X. simpl in X. lia.
Qed.

Lemma conservation (primary : option json) (dir : tools_dir) (st : state)
  (duplicates : list url_entry) :
  audit primary dir = Completed st duplicates ->
  totalTools st
  = length (filter has_no_url_property (missing_url (issues st)))
    + owner_total (urlMap st).
Proof.
  apply (audit_invariant
           (fun s => totalTools s
                     = length (filter has_no_url_property
                                 (missing_url (issues s)))
                       + owner_total (urlMap s))).
  - reflexivity.
  - intros cat s tool s' E H.
    destruct (check_tool_cases _ _ _ _ E)
      as (Ht & _ & _ & [(Hu & _ & _ & Hm) | (u & _ & _ & Hu & _ & _ & K)]).
    + rewrite Ht, Hu, Hm, filter_app, length_app, H. simpl. lia.
    + rewrite Ht, Hu, (track_total _ _ _ _ K), H. lia.
  - intros name s tool s' E H.
    destruct (check_split_tool_cases _ _ _ _ E)
      as (Ht & _ & _ & Hm & [(_ & Hu & _) | (u & _ & _ & Hu & _)]).
    + rewrite Ht, Hu, Hm, filter_app, H. simpl. rewrite app_nil_r.
      reflexivity.
    + rewrite Ht, Hu, Hm. exact H.
  - intros i s H. exact H.
Qed.

(** X3: when the run completes, every primary record that was counted is
    accounted for exactly once: the total equals the number of
    [missing_url] findings of the primary stream (those pushed without a
    [url] property) plus the number of owners in the url index. *)
Theorem every_primary_record_is_accounted_for (primary : option json)
  (dir : tools_dir) (st : state) (duplicates : list url_entry) :
  audit primary dir = Completed st duplicates ->
  totalTools st
  = length (filter has_no_url_property (missing_url (issues st)))
    + owner_total (urlMap st).
Proof. apply conservation. Qed.

Lemma every_primary_record_is_accounted_for_witness :
  exists st duplicates,
    audit (Some mixed_dataset) blank_dir = Completed st duplicates
    /\ totalTools st = 3
    /\ length (missing_url (issues st)) = 1
    /\ owner_total (urlMap st) = 2
    /\ totalTools st
       = length (filter has_no_url_property (missing_url (issues st)))
         + owner_total (urlMap st).
Proof.
  destruct (audit (Some mixed_dataset) blank_dir) as [|e|st d] eqn:E;
    try (vm_compute in E; discriminate E).
  pose proof (every_primary_record_is_accounted_for _ _ _ _ E) as C.
  exists st, d. split; [reflexivity|].
  vm_compute in E. injection E as <- <-.
  split; [reflexivity|]. split; [reflexivity|]. split; [reflexivity|].
  exact C.
Defined.

(** ** The shape of the index *)

Lemma drop_while_idem (p : N -> bool) (s : jsstring) :
  drop_while p (drop_while p s) = drop_while p s.
Proof.
  induction s as [|c s IH]; simpl; [reflexivity|].
  destruct (p c) eqn:E; [exact IH|]. simpl. rewrite E. reflexivity.
Qed.

Lemma drop_while_keeps (p : N -> bool) (s : jsstring) :
  (forall c r, s = c :: r -> p c = false) -> drop_while p s = s.
Proof.
  destruct s as [|c s]; [reflexivity|]. intros H. simpl.
  rewrite (H c s eq_refl). reflexivity.
Qed.

Lemma trim_decompose (s : jsstring) :
  exists post, drop_while is_space s = trim s ++ post.
Proof.
  unfold trim.
  destruct (drop_while_suffix is_space (rev (drop_while is_space s)))
    as [d H].
  exists (rev d). rewrite <- rev_app_distr, <- H, rev_involutive.
  reflexivity.
Qed.

Lemma trim_trim (s : jsstring) : trim (trim s) = trim s.
Proof.
  assert (H1 : drop_while is_space (trim s) = trim s).
  { apply drop_while_keeps. intros c r E.
    destruct (trim_decompose s) as [post D]. rewrite E in D. simpl in D.
    exact (drop_while_head _ _ _ _ D). }
  unfold trim at 1. rewrite H1. unfold trim.
  rewrite rev_involutive, drop_while_idem. reflexivity.
Qed.

Lemma Forall_map_set (Q : url_entry -> Prop) (k : jsstring)
  (v : list toolInfo) (m : url_map) :
  Q (k, v) -> Forall Q m -> Forall Q (map_set k v m).
Proof.
  intros q. induction 1 as [|[k' v'] m H F IH]; simpl.
  - repeat constructor. exact q.
  - destruct (str_eqb k k') eqn:E.
    + apply str_eqb_eq in E. subst k'. constructor; assumption.
    + constructor; assumption.
Qed.

Lemma Forall_map_set_twice (Q : url_entry -> Prop) (k : jsstring)
  (v w : list toolInfo) (m : url_map) :
  Q (k, v) -> Forall Q m -> Forall Q (map_set k v (map_set k w m)).
Proof.
  intros q. induction 1 as [|[k' v'] m H F IH]; simpl.
  - rewrite str_eqb_refl. repeat constructor. exact q.
  - destruct (str_eqb k k') eqn:E; simpl; rewrite E.
    + apply str_eqb_eq in E. subst k'. constructor; assumption.
    + constructor; assumption.
Qed.

Lemma track_Forall (Q : url_entry -> Prop) (u : jsstring) (t : toolInfo)
  (m m' : url_map) :
  track u t m = Normal m' ->
  (forall o, Q (u, o ++ [t])) -> Forall Q m -> Forall Q m'.
Proof.
  unfold track, map_has. cbv zeta. intros E q F.
  destruct (map_get u m) as [o|] eqn:G.
  - rewrite G in E. injection E as <-.
    apply Forall_map_set; [apply q | exact F].
  - rewrite map_get_set_same in E. injection E as <-.
    apply Forall_map_set_twice; [apply (q []) | exact F].
Qed.

Lemma index_well_formed (primary : option json) (dir : tools_dir)
  (st : state) (duplicates : list url_entry) :
  audit primary dir = Completed st duplicates ->
  Forall well_formed_entry (urlMap st).
Proof.
  apply (audit_invariant (fun s => Forall well_formed_entry (urlMap s))).
  - constructor.
  - intros cat s tool s' E H.
    destruct (check_tool_cases _ _ _ _ E)
      as (_ & _ & _ & [(_ & _ & _ & ->) | (u & _ & T & _ & _ & _ & K)]);
      [exact H|].
    refine (track_Forall _ _ _ _ _ K _ H).
    intros o. repeat split; cbn [fst snd];
      [exact T | apply trim_trim | destruct o; discriminate].
  - intros name s tool s' E H.
    destruct (check_split_tool_cases _ _ _ _ E) as (_ & _ & _ & -> & _).
    exact H.
  - intros i s H. exact H.
Qed.

Lemma length_le_owner_total (m : url_map) :
  Forall well_formed_entry m -> length m <= owner_total m.
Proof.
  unfold owner_total.
  induction 1 as [|[k v] m (_ & _ & H) F IH]; simpl; [lia|].
  unfold count at 1. cbn [snd] in *. destruct v; [contradiction|].
  simpl. lia.
Qed.

(** X4: when the run completes, every entry of the url index has a key
    that is non-empty and has no white space at either end, and at least
    one owner; so the number of unique urls the header shows never
    exceeds the number of tools it shows. *)
Theorem index_entries_are_well_formed (primary : option json)
  (dir : tools_dir) (st : state) (duplicates : list url_entry) :
  audit primary dir = Completed st duplicates ->
  Forall well_formed_entry (urlMap st)
  /\ length (urlMap st) <= totalTools st.
Proof.
  intros A. pose proof (index_well_formed _ _ _ _ A) as W.
  split; [exact W|].
  rewrite (conservation _ _ _ _ A).
  pose proof (length_le_owner_total _ W). lia.
Qed.

Lemma index_entries_are_well_formed_witness :
  exists st duplicates,
    audit (Some three_and_two) DirAbsent = Completed st duplicates
    /\ length (urlMap st) = 2 /\ totalTools st = 5
    /\ Forall well_formed_entry (urlMap st).
Proof.
  destruct (audit (Some three_and_two) DirAbsent) as [|e|st d] eqn:E;
    try (vm_compute in E; discriminate E).
  pose proof (index_entries_are_well_formed _ _ _ _ E) as [W _].
  exists st, d. split; [reflexivity|].
  vm_compute in E. injection E as <- <-.
  split; [reflexivity|]. split; [reflexivity | exact W].
Defined.

(** ** No false findings *)

Lemma Forall_snoc {A} (P : A -> Prop) (l : list A) (x : A) :
  Forall P l -> P x -> Forall P (l ++ [x]).
Proof.
  intros F p. apply Forall_app. split; [exact F | repeat constructor; exact p].
Qed.

(** X5: when the run completes, no finding is a false one.  Every entry
    of [missing_protocol] shows a non-empty string url that begins with
    neither protocol; every entry of [missing_ref] shows a non-empty
    string url without the marker; and the url of every [missing_url]
    entry is falsy. *)
Theorem findings_fail_their_rule (primary : option json) (dir : tools_dir)
  (st : state) (duplicates : list url_entry) :
  audit primary dir = Completed st duplicates ->
  Forall (flags_text has_protocol) (missing_protocol (issues st))
  /\ Forall (flags_text (fun u => includes u REQUIRED_REF))
       (missing_ref (issues st))
  /\ Forall (fun t => truthy (url_of t) = false) (missing_url (issues st)).
Proof.
  apply (audit_invariant
           (fun s =>
              Forall (flags_text has_protocol) (missing_protocol (issues s))
              /\ Forall (flags_text (fun u => includes u REQUIRED_REF))
                   (missing_ref (issues s))
              /\ Forall (fun t => truthy (url_of t) = false)
                   (missing_url (issues s)))).
  - repeat split; constructor.
  - intros cat s tool s' E (Fp & Fr & Fu).
    destruct (check_tool_cases _ _ _ _ E)
      as (_ & _ & _ & [(Hu & Hp & Hr & _) | (u & _ & T & Hu & Hp & Hr & _)]).
    + rewrite Hu, Hp, Hr. repeat split; try assumption.
      apply Forall_snoc; [exact Fu | reflexivity].
    + rewrite Hu, Hp, Hr. repeat split; try assumption.
      * destruct (has_protocol (trim u)) eqn:B; [exact Fp|].
        apply Forall_snoc; [exact Fp|]. exists (trim u). auto.
      * destruct (includes (trim u) REQUIRED_REF) eqn:B; [exact Fr|].
        apply Forall_snoc; [exact Fr|]. exists (trim u). auto.
  - intros name s tool s' E (Fp & Fr & Fu).
    destruct (check_split_tool_cases _ _ _ _ E)
      as (_ & _ & _ & _ & [(Tr & Hu & Hp & Hr) | (u & U & T & Hu & Hp & Hr)]).
    + rewrite Hu, Hp, Hr. repeat split; try assumption.
      apply Forall_snoc; [exact Fu | exact Tr].
    + rewrite Hu, Hp, Hr. repeat split; try assumption.
      * destruct (has_protocol u) eqn:B; [exact Fp|].
        apply Forall_snoc; [exact Fp|]. exists u.
        unfold split_info; cbn [url]. rewrite U. auto.
      * destruct (includes u REQUIRED_REF) eqn:B; [exact Fr|].
        apply Forall_snoc; [exact Fr|]. exists u.
        unfold split_info; cbn [url]. rewrite U. auto.
  - intros i s H. exact H.
Qed.

Lemma findings_fail_their_rule_witness :
  exists st duplicates,
    audit (Some flagged_dataset) blank_dir = Completed st duplicates
    /\ length (missing_protocol (issues st)) = 2
    /\ Forall (flags_text has_protocol) (missing_protocol (issues st)).
Proof.
  destruct (audit (Some flagged_dataset) blank_dir) as [|e|st d] eqn:E;
    try (vm_compute in E; discriminate E).
  pose proof (findings_fail_their_rule _ _ _ _ E) as [F _].
  exists st, d. split; [reflexivity|].
  vm_compute in E. injection E as <- <-.
  split; [reflexivity | exact F].
Defined.

(** ** The split directory *)

Lemma audit_dir_ext (primary : option json) (d1 d2 : tools_dir) :
  (forall st, check_split st d1 = check_split st d2) ->
  audit primary d1 = audit primary d2.
Proof.
  intros H. unfold audit, traverse.
  destruct primary as [data|]; [|reflexivity].
  destruct (prop data "tools") as [[[| | | |cats|]|]|e]; try reflexivity.
  destruct (forEach check_category init cats) as [st|e]; [|reflexivity].
  cbn [bind]. rewrite H. reflexivity.
Qed.

(** X6: an entry of the split directory whose name does not end in
    [.json] is never read: with or without it, and whatever it holds, the
    run is the same. *)
Theorem other_files_are_never_read (primary : option json)
  (before after : list (jsstring * option json)) (name : jsstring)
  (content : option json) :
  endsWith name (lit ".json") = false ->
  main primary (DirListing (before ++ (name, content) :: after))
  = main primary (DirListing (before ++ after)).
Proof.
  intros E. unfold main.
  rewrite (audit_dir_ext primary
             (DirListing (before ++ (name, content) :: after))
             (DirListing (before ++ after))); [reflexivity|].
  intros st. unfold check_split. rewrite !filter_app. cbn [filter].
  unfold is_json_name at 2. cbn [fst]. rewrite E. reflexivity.
Qed.

Lemma other_files_are_never_read_witness :
  main (Some clean_dataset)
    (DirListing ([(lit "dev.json", Some (JArr []))]
                 ++ (lit "README.md", None) :: []))
  = main (Some clean_dataset)
      (DirListing ([(lit "dev.json", Some (JArr []))] ++ [])).
Proof.
  apply (other_files_are_never_read (Some clean_dataset)
           [(lit "dev.json", Some (JArr []))] [] (lit "README.md") None).
  reflexivity.
Defined.





(** The file [a.json.json] is in category [a.json], the file [x.jsonl.json]
    in category [xl.json]. *)
Example category_name_of_double_extension :
  remove_first (lit "a.json.json") (lit ".json") = lit "a.json"
  /\ remove_first (lit "x.jsonl.json") (lit ".json") = lit "xl.json"
  /\ remove_first (lit "writing.json") (lit ".json") = lit "writing".
Proof. repeat split. Qed.

(** ** The report *)

Lemma each_from_closing {A} (f : nat -> A -> list log_line) (l : list A) :
  (forall i x, forallb (fun y => negb (is_closing y)) (f i x) = true) ->
  forall i, forallb (fun y => negb (is_closing y)) (each_from f i l) = true.
Proof.
  intros H. induction l as [|x l IH]; intros i; simpl; [reflexivity|].
  rewrite forallb_app, H, IH. reflexivity.
Qed.

Lemma section_closing {A} (head : nat -> log_line)
  (item : nat -> A -> list log_line) (l : list A) :
  (forall n, is_closing (head n) = false) ->
  (forall i x, forallb (fun y => negb (is_closing y)) (item i x) = true) ->
  forallb (fun y => negb (is_closing y)) (section head item l) = true.
Proof.
  intros Hh Hi. unfold section. destruct (Nat.ltb 0 (length l)); [|reflexivity].
  simpl. rewrite Hh, forallb_app, (each_from_closing _ _ Hi). reflexivity.
Qed.

Lemma body_has_no_closing (st : state) (duplicates : list url_entry) :
  forallb (fun y => negb (is_closing y))
    (header st ++ sections st duplicates ++ [Rule]) = true.
Proof.
  unfold sections. rewrite !forallb_app.
  rewrite !section_closing; try reflexivity.
  intros i e. unfold duplicate_lines. cbn [forallb is_closing negb andb].
  apply each_from_closing. reflexivity.
Qed.

Lemma not_clean_positive (st : state) (duplicates : list url_entry) :
  ~ clean st duplicates -> 0 < issueCount st duplicates.
Proof.
  unfold clean, issueCount. intros H.
  destruct (missing_url (issues st)), (missing_protocol (issues st)),
    (missing_ref (issues st)), (invalid_structure (issues st)), duplicates;
    simpl; try lia.
  exfalso. apply H. repeat split.
Qed.

Lemma printed_keeps (Q : log_line -> bool) (l : list log_line) :
  forallb Q l = true -> forallb Q (printed l) = true.
Proof.
  induction l as [|x l IH]; simpl; [reflexivity|].
  intros H. apply andb_true_iff in H. destruct H as [Hx Hl].
  destruct (line_prints x); [|reflexivity]. simpl. rewrite Hx. exact (IH Hl).
Qed.

Lemma no_closing_filter (l : list log_line) :
  forallb (fun y => negb (is_closing y)) l = true ->
  filter is_closing l = [].
Proof.
  induction l as [|x l IH]; simpl; [reflexivity|].
  destruct (is_closing x); [discriminate | exact IH].
Qed.

Lemma no_closing_In (l : list log_line) (x : log_line) :
  forallb (fun y => negb (is_closing y)) l = true ->
  is_closing x = true -> ~ In x l.
Proof.
  intros H C I. apply no_closing_filter in H.
  assert (In x (filter is_closing l)) by (apply filter_In; auto).
  rewrite H in *. contradiction.
Qed.

(** X8: a report has at most one closing line, and nothing of that kind
    before it.  When every reported value can be converted to a string
    the closing line is there, as the last line: the success line exactly
    when the exit code is 0, otherwise a summary whose number is at least
    1.  When a conversion raises, or the run has no report, there is no
    closing line and the exit code is 1. *)
Theorem report_closes_once (primary : option json) (dir : tools_dir) :
  filter is_closing (stdout (main primary dir))
  = match audit primary dir with
    | Completed st duplicates =>
        if forallb line_prints (sections st duplicates) then
          if Z.eqb (exit_code (main primary dir)) 0 then [AllPassed]
          else [Summary (issueCount st duplicates)]
        else []
    | _ => []
    end
  /\ (forall n, In (Summary n) (stdout (main primary dir)) -> 0 < n)
  /\ (In AllPassed (stdout (main primary dir))
      <-> exit_code (main primary dir) = 0%Z)
  /\ (filter is_closing (stdout (main primary dir)) = [] ->
      exit_code (main primary dir) = 1%Z).
Proof.
  unfold main. destruct (audit primary dir) as [| |st d]; cbn [stdout exit_code].
  - split; [reflexivity|]. split; [intros n []|].
    split; [split; [intros [] | discriminate] | reflexivity].
  - split; [reflexivity|]. split; [intros n []|].
    split; [split; [intros [] | discriminate] | reflexivity].
  - pose proof (body_has_no_closing st d) as NB.
    pose proof (no_closing_filter _ NB) as B.
    destruct (printable_report_dec st d) as [P|P].
    + unfold printable_report in P. rewrite P.
      destruct (clean_dec st d) as [C|C].
      * rewrite (report_clean _ _ C). cbn [stdout exit_code Z.eqb].
        assert (header st ++ [Rule; AllPassed]
                = (header st ++ sections st d ++ [Rule]) ++ [AllPassed]) as X.
        { destruct C as (H1 & H2 & H3 & H4 & H5). unfold sections.
          rewrite H1, H2, H3, H4, H5. reflexivity. }
        rewrite X, filter_app, B.
        split; [reflexivity|]. split; [|split; [|discriminate]].
        -- intros n I. apply in_app_or in I. destruct I as [I|[I|[]]].
           ++ exfalso. exact (no_closing_In _ (Summary n) NB eq_refl I).
           ++ discriminate I.
        -- split; [reflexivity|]. intros _. apply in_or_app.
           right. left. reflexivity.
      * rewrite (report_findings _ _ C P). cbn [stdout exit_code Z.eqb].
        rewrite filter_app, B.
        split; [reflexivity|]. split; [|split; [|reflexivity]].
        -- intros n I. apply in_app_or in I. destruct I as [I|[I|[]]].
           ++ exfalso. exact (no_closing_In _ (Summary n) NB eq_refl I).
           ++ injection I as <-. apply not_clean_positive, C.
        -- split; [|discriminate]. intros I. exfalso.
           apply in_app_or in I. destruct I as [I|[I|[]]].
           ++ exact (no_closing_In _ AllPassed NB eq_refl I).
           ++ discriminate I.
    + rewrite (report_broken _ _ P). cbn [stdout exit_code].
      pose proof (printed_keeps _ _ NB) as NP.
      assert (forallb line_prints (sections st d) = false) as ->.
      { unfold printable_report in P.
        destruct (forallb line_prints (sections st d)); [contradiction P|];
          reflexivity. }
      split; [apply no_closing_filter, NP|].
      split; [|split; [|reflexivity]].
      * intros n I. exfalso. exact (no_closing_In _ (Summary n) NP eq_refl I).
      * split; [|discriminate]. intros I. exfalso.
        exact (no_closing_In _ AllPassed NP eq_refl I).
Qed.

Lemma each_from_flat {A} (f : nat -> A -> list log_line) (l : list A)
  (i : nat) :
  each_from f i l
  = flat_map (fun p => f (fst p) (snd p)) (combine (seq (i + 1) (length l)) l).
Proof.
  revert i. induction l as [|x l IH]; intros i; simpl; [reflexivity|].
  rewrite IH. replace (S i + 1) with (S (i + 1)) by lia. reflexivity.
Qed.

Lemma section_numbered {A} (head : nat -> log_line)
  (f : nat -> A -> list log_line) (l : list A) :
  section head f l = numbered head f l.
Proof.
  unfold section, numbered. destruct l as [|x l]; [reflexivity|].
  cbn [length Nat.ltb Nat.leb]. rewrite each_from_flat. reflexivity.
Qed.

Lemma flat_map_single {A} (g : A -> log_line) (l : list A) :
  flat_map (fun p => [g p]) l = map g l.
Proof.
  induction l as [|x l IH]; [reflexivity|]. simpl. rewrite IH. reflexivity.
Qed.

Lemma duplicate_lines_numbered (i : nat) (e : url_entry) :
  duplicate_lines i e = group_lines i e.
Proof.
  unfold duplicate_lines, group_lines.
  rewrite each_from_flat, flat_map_single. reflexivity.
Qed.

Lemma sections_layout (st : state) (duplicates : list url_entry) :
  header st ++ sections st duplicates ++ [Rule] = layout st duplicates.
Proof.
  unfold sections, layout. rewrite !section_numbered.
  rewrite <- !app_assoc. do 4 f_equal.
  f_equal. unfold numbered. destruct duplicates as [|e d]; [reflexivity|].
  do 2 f_equal. apply flat_map_ext. intros p. apply duplicate_lines_numbered.
Qed.

(** X9: the output of a completed run is the header, then for each
    non-empty bucket, in the order missing_url, missing_protocol,
    missing_ref, duplicates, invalid_structure, a head showing that
    bucket's size, its entries in bucket order numbered from 1 (each
    duplicate group with its owners numbered from 1) and a blank line,
    then the rule and the closing line; when a value of some line cannot
    be converted to a string, the output is the lines before that one. *)
Theorem report_lists_each_bucket_numbered (primary : option json)
  (dir : tools_dir) (st : state) (duplicates : list url_entry) :
  audit primary dir = Completed st duplicates ->
  stdout (main primary dir)
  = if forallb line_prints (layout st duplicates)
    then layout st duplicates ++ [closing_line st duplicates]
    else printed (layout st duplicates).
Proof.
  intros A. unfold main. rewrite A. unfold report, closing_line.
  rewrite sections_layout.
  destruct (forallb line_prints (layout st duplicates)); cbn [negb];
    [|reflexivity].
  destruct (hasIssues st duplicates); reflexivity.
Qed.

Lemma report_lists_each_bucket_numbered_witness :
  exists st duplicates,
    audit (Some three_and_two) tolerant_dir = Completed st duplicates
    /\ stdout (main (Some three_and_two) tolerant_dir)
       = [Title; Rule; TotalTools 5 None; UniqueUrls 2;
          DuplicateHead 2;
          DuplicateUrl 1 (lit good_a); DuplicateCount 3;
          DuplicateItem 1 (Some (str "A1")) undefined (Some (str "One"));
          DuplicateItem 2 (Some (str "A2")) undefined (Some (str "Two"));
          DuplicateItem 3 (Some (str "A3")) undefined (Some (str "Two"));
          DuplicateUrl 2 (lit good_b); DuplicateCount 2;
          DuplicateItem 1 (Some (str "B1")) undefined (Some (str "One"));
          DuplicateItem 2 (Some (str "B2")) undefined (Some (str "Two"));
          Blank;
          InvalidStructureHead 1;
          InvalidStructureItem 1 (lit "bad") TObject;
          Blank; Rule; Summary 3].
Proof.
  destruct (audit (Some three_and_two) tolerant_dir) as [|e|st d] eqn:E;
    try (vm_compute in E; discriminate E).
  pose proof (report_lists_each_bucket_numbered _ _ _ _ E) as L.
  exists st, d. split; [reflexivity|]. rewrite L.
  vm_compute in E. injection E as <- <-. vm_compute. reflexivity.
Defined.

(** ** The two paths compared *)

Lemma includes_skips_space (c : N) (s p : jsstring) (x : N) (r : jsstring) :
  p = x :: r -> is_space x = false -> is_space c = true ->
  includes (c :: s) p = includes s p.
Proof.
  intros -> X C. cbn [includes startsWith].
  destruct (N.eqb x c) eqn:E; [|reflexivity].
  apply N.eqb_eq in E. congruence.
Qed.

Lemma includes_drop_while (s p : jsstring) (x : N) (r : jsstring) :
  p = x :: r -> is_space x = false ->
  includes (drop_while is_space s) p = includes s p.
Proof.
  intros P X. induction s as [|c s IH]; [reflexivity|].
  cbn [drop_while]. destruct (is_space c) eqn:C; [|reflexivity].
  rewrite IH. symmetry. exact (includes_skips_space c s p x r P X C).
Qed.

Lemma includes_rev (s p : jsstring) :
  includes (rev s) (rev p) = includes s p.
Proof.
  apply eq_true_iff_eq. rewrite !includes_spec. split.
  - intros (a & b & H). exists (rev b), (rev a).
    apply (f_equal (@rev N)) in H.
    rewrite rev_involutive, !rev_app_distr, rev_involutive in H.
    rewrite H, app_assoc. reflexivity.
  - intros (a & b & ->). exists (rev b), (rev a).
    rewrite !rev_app_distr, app_assoc. reflexivity.
Qed.

(** A url contains [?ref=riseofmachine.com] exactly when its trimmed
    form does. *)
Lemma marker_rule_ignores_trimming (s : jsstring) :
  includes (trim s) REQUIRED_REF = includes s REQUIRED_REF.
Proof.
  unfold trim.
  rewrite <- (rev_involutive REQUIRED_REF) at 1. rewrite includes_rev.
  rewrite (includes_drop_while _ (rev REQUIRED_REF) 109
             (tl (rev REQUIRED_REF)) eq_refl eq_refl).
  rewrite includes_rev.
  apply (includes_drop_while _ REQUIRED_REF 63 (tl REQUIRED_REF));
    reflexivity.
Qed.

(** X10: on a record whose url is a string that is not all white space,
    the primary path and the split path agree on the marker rule, white
    space around the url or not: both complete, and each pushes the
    record to [missing_ref] exactly when the stored url does not contain
    [?ref=riseofmachine.com]. *)
Theorem marker_rule_agrees_across_paths (cat : json) (name : jsstring)
  (st : state) (tool : json) (s : jsstring) :
  get tool "url" = Some (JStr s) -> trim s <> [] ->
  exists st1 st2,
    check_tool cat st tool = Normal st1
    /\ check_split_tool name st tool = Normal st2
    /\ pushed_unless (carries_ref s)
         (with_url (primary_info cat tool) (trim s))
         (missing_ref (issues st)) (missing_ref (issues st1))
    /\ pushed_unless (carries_ref s) (split_info name tool)
         (missing_ref (issues st)) (missing_ref (issues st2))
    /\ map title (missing_ref (issues st1))
       = map title (missing_ref (issues st2)).
Proof.
  intros U T.
  assert (Ns : s <> []) by (intros ->; apply T; reflexivity).
  destruct (check_tool_with_url cat st tool s U T)
    as (st1 & E1 & _ & _ & R1 & _).
  destruct (check_split_tool_with_url name st tool s U Ns)
    as (st2 & E2 & _ & _ & R2 & _).
  rewrite marker_rule_ignores_trimming in R1.
  exists st1, st2. rewrite R1, R2.
  split; [exact E1|]. split; [exact E2|].
  split; [apply pushed_unless_bool, includes_ref_spec|].
  split; [apply pushed_unless_bool, includes_ref_spec|].
  destruct (includes s REQUIRED_REF); rewrite ?map_app; reflexivity.
Qed.

Lemma marker_rule_agrees_across_paths_witness :
  exists st1 st2,
    check_tool (category_of "Dev" []) init (record "Padded" "  https://a.com ")
    = Normal st1
    /\ check_split_tool (lit "dev") init (record "Padded" "  https://a.com ")
       = Normal st2
    /\ map title (missing_ref (issues st1)) = [Some (str "Padded")]
    /\ map title (missing_ref (issues st2)) = [Some (str "Padded")]
    /\ map title (missing_protocol (issues st1)) = []
    /\ map title (missing_protocol (issues st2)) = [Some (str "Padded")].
Proof.
  destruct (marker_rule_agrees_across_paths (category_of "Dev" []) (lit "dev")
              init (record "Padded" "  https://a.com ")
              (lit "  https://a.com ") eq_refl)
    as (st1 & st2 & E1 & E2 & _); [discriminate|].
  exists st1, st2. split; [exact E1|]. split; [exact E2|].
  vm_compute in E1, E2. injection E1 as <-. injection E2 as <-.
  repeat split.
Defined.



(** * Further properties of the slug generator *)

Import Maintenance.

Lemma slugify_chain (toLowerCase : jsstring -> jsstring) (text : jsstring) :
  slugify toLowerCase text
  = strip_trailing_hyphens
      (strip_leading_hyphens
         (squeeze_hyphens
            (keep_word_and_hyphen
               (spaces_to_hyphens (trim (toLowerCase text)))))).
Proof.
  unfold slugify.
  rewrite replace_spaces, replace_stripped, replace_hyphens. reflexivity.
Qed.

Lemma word_range (c : N) : is_word c = true -> (48 <= c <= 122)%N.
Proof.
  unfold is_word, is_upper, is_lower, is_digit.
  rewrite !orb_true_iff, !andb_true_iff, !N.leb_le, N.eqb_eq. lia.
Qed.

Lemma space_not_word (c : N) : is_space c = true -> is_word c = false.
Proof.
  intros H. destruct (is_word c) eqn:W; [|reflexivity].
  apply word_range in W. unfold is_space in H.
  rewrite !orb_true_iff, !andb_true_iff, !N.leb_le, !N.eqb_eq in H. lia.
Qed.

Lemma hyphen_not_word (c : N) : is_hyphen c = true -> is_word c = false.
Proof.
  intros H. apply N.eqb_eq in H. subst c. reflexivity.
Qed.

Lemma filter_drop_while (q p : N -> bool) (s : jsstring) :
  (forall c, p c = true -> q c = false) ->
  filter q (drop_while p s) = filter q s.
Proof.
  intros H. induction s as [|c s IH]; [reflexivity|].
  cbn [drop_while]. destruct (p c) eqn:E; [|reflexivity].
  cbn [filter]. rewrite (H c E). exact IH.
Qed.

Lemma filter_rev_drop_while (q p : N -> bool) (s : jsstring) :
  (forall c, p c = true -> q c = false) ->
  filter q (rev (drop_while p (rev s))) = filter q s.
Proof.
  intros H. rewrite filter_rev, (filter_drop_while q p _ H), filter_rev.
  apply rev_involutive.
Qed.

Lemma filter_collapse_runs (q C : N -> bool) (rep : jsstring)
  (inside : bool) (s : jsstring) :
  (forall c, C c = true -> q c = false) -> filter q rep = [] ->
  filter q (collapse_runs C rep inside s) = filter q s.
Proof.
  intros H R. revert inside.
  induction s as [|c s IH]; intros inside; [reflexivity|].
  cbn [collapse_runs]. destruct (C c) eqn:E.
  - rewrite filter_app, IH. cbn [filter]. rewrite (H c E).
    destruct inside; [reflexivity | rewrite R; reflexivity].
  - cbn [filter]. rewrite IH. reflexivity.
Qed.

Lemma filter_word_kept (s : jsstring) :
  filter is_word (keep_word_and_hyphen s) = filter is_word s.
Proof.
  unfold keep_word_and_hyphen. induction s as [|c s IH]; [reflexivity|].
  cbn [filter]. destruct (is_word c) eqn:W; cbn [orb].
  - cbn [filter]. rewrite W, IH. reflexivity.
  - destruct (is_hyphen c); [cbn [filter]; rewrite W|]; exact IH.
Qed.

Lemma word_units_before_stripping (toLowerCase : jsstring -> jsstring)
  (text : jsstring) :
  filter is_word
    (squeeze_hyphens
       (keep_word_and_hyphen (spaces_to_hyphens (trim (toLowerCase text)))))
  = filter is_word (toLowerCase text).
Proof.
  unfold squeeze_hyphens, spaces_to_hyphens.
  rewrite (filter_collapse_runs is_word is_hyphen [hyphen] _ _
             hyphen_not_word eq_refl).
  rewrite filter_word_kept.
  rewrite (filter_collapse_runs is_word is_space [hyphen] _ _
             space_not_word eq_refl).
  unfold trim.
  rewrite (filter_rev_drop_while _ _ _ space_not_word).
  apply (filter_drop_while _ _ _ space_not_word).
Qed.

Lemma slugify_word_units (toLowerCase : jsstring -> jsstring)
  (text : jsstring) :
  filter is_word (slugify toLowerCase text)
  = filter is_word (toLowerCase text).
Proof.
  rewrite slugify_chain.
  unfold strip_trailing_hyphens, strip_leading_hyphens.
  rewrite (filter_rev_drop_while _ _ _ hyphen_not_word).
  rewrite (filter_drop_while _ _ _ hyphen_not_word).
  apply word_units_before_stripping.
Qed.

(** X12: a slug keeps every word character of the lowercased text, in
    order, and adds none: what [slugify] changes besides the case is only
    where hyphens stand. *)
Theorem slugify_keeps_the_word_characters
  (toLowerCase : jsstring -> jsstring) (text : jsstring) :
  filter is_word (slugify toLowerCase text)
  = filter is_word (toLowerCase text).
Proof. apply slugify_word_units. Qed.

Lemma drop_while_all (p : N -> bool) (s : jsstring) :
  Forall (fun c => p c = true) s -> drop_while p s = [].
Proof.
  induction 1 as [|c s H F IH]; [reflexivity|]. simpl. rewrite H. exact IH.
Qed.

Lemma filter_nil_Forall (q : N -> bool) (s : jsstring) :
  filter q s = [] <-> Forall (fun c => q c = false) s.
Proof.
  induction s as [|c s IH]; simpl.
  - split; [constructor | reflexivity].
  - destruct (q c) eqn:E.
    + split; [discriminate|]. intros H. inversion H; congruence.
    + rewrite IH. split; [constructor; assumption|].
      intros H. inversion H; assumption.
Qed.

(** X13: the slug is empty exactly when the lowercased text has no word
    character ([a-z], [0-9], [_]; an upper-case letter left by the case
    mapping would count too): a title made of punctuation, blanks and
    hyphens only gets the empty slug. *)
Theorem slug_is_empty_iff_no_word_character
  (toLowerCase : jsstring -> jsstring) (text : jsstring) :
  slugify toLowerCase text = []
  <-> Forall (fun c => is_word c = false) (toLowerCase text).
Proof.
  split.
  - intros E. apply filter_nil_Forall.
    rewrite <- (slugify_word_units toLowerCase text), E. reflexivity.
  - intros F. apply filter_nil_Forall in F.
    rewrite slugify_chain.
    set (s5 := squeeze_hyphens _).
    assert (W : filter is_word s5 = [])
      by (unfold s5; rewrite word_units_before_stripping; exact F).
    assert (H : Forall (fun c => is_hyphen c = true) s5).
    { apply filter_nil_Forall in W.
      assert (K : Forall (fun c => is_word c || is_hyphen c = true) s5).
      { unfold s5, squeeze_hyphens.
        apply collapse_runs_Forall; [repeat constructor|].
        unfold keep_word_and_hyphen. apply Forall_forall.
        intros c I. apply filter_In in I. exact (proj2 I). }
      apply Forall_forall. intros c I.
      pose proof (proj1 (Forall_forall _ _) W c I) as Wc.
      pose proof (proj1 (Forall_forall _ _) K c I) as Kc.
      simpl in Wc, Kc. rewrite Wc in Kc. exact Kc. }
    unfold strip_leading_hyphens. rewrite (drop_while_all _ _ H).
    reflexivity.
Qed.

Lemma collapse_runs_none (C : N -> bool) (rep : jsstring) (inside : bool)
  (s : jsstring) :
  Forall (fun c => C c = false) s -> collapse_runs C rep inside s = s.
Proof.
  intros F. revert inside.
  induction F as [|c s H F IH]; intros inside; [reflexivity|].
  cbn [collapse_runs]. rewrite H, IH. reflexivity.
Qed.

Lemma slug_unit_range (c : N) : is_slug_unit c = true -> (45 <= c <= 122)%N.
Proof.
  unfold is_slug_unit, is_lower, is_digit, is_hyphen, hyphen.
  rewrite !orb_true_iff, !andb_true_iff, !N.leb_le, !N.eqb_eq. lia.
Qed.

Lemma slug_unit_not_space (c : N) :
  is_slug_unit c = true -> is_space c = false.
Proof.
  intros H. apply slug_unit_range in H.
  destruct (is_space c) eqn:W; [|reflexivity]. unfold is_space in W.
  rewrite !orb_true_iff, !andb_true_iff, !N.leb_le, !N.eqb_eq in W. lia.
Qed.

Lemma slug_unit_kept (c : N) :
  is_slug_unit c = true -> is_word c || is_hyphen c = true.
Proof.
  unfold is_slug_unit, is_word.
  destruct (is_upper c), (is_lower c), (is_digit c), (N.eqb c 95),
    (is_hyphen c); simpl; congruence.
Qed.

Lemma squeeze_single (s : jsstring) (inside : bool) :
  (forall a b, s <> a ++ hyphen :: hyphen :: b) ->
  (inside = true -> forall r, s <> hyphen :: r) ->
  collapse_runs is_hyphen [hyphen] inside s = s.
Proof.
  revert inside. induction s as [|c s IH]; intros inside D H; [reflexivity|].
  cbn [collapse_runs]. destruct (is_hyphen c) eqn:Hc.
  - apply N.eqb_eq in Hc. subst c.
    destruct inside; [exfalso; exact (H eq_refl s eq_refl)|].
    simpl. f_equal. apply IH.
    + intros a b E. apply (D (hyphen :: a) b). rewrite E. reflexivity.
    + intros _ r E. apply (D [] r). rewrite E. reflexivity.
  - f_equal. apply IH.
    + intros a b E. apply (D (c :: a) b). rewrite E. reflexivity.
    + discriminate.
Qed.

(** X14: a slug goes through [slugify] unchanged: a string of [a-z],
    [0-9], [_] and hyphens that neither begins nor ends with a hyphen,
    has no two hyphens in a row and is left alone by the case mapping is
    its own slug. *)
Theorem slugify_fixes_slugs (toLowerCase : jsstring -> jsstring)
  (s : jsstring) :
  toLowerCase s = s ->
  Forall (fun c => is_slug_unit c = true) s ->
  (forall r, s <> hyphen :: r) ->
  (forall r, s <> r ++ [hyphen]) ->
  (forall a b, s <> a ++ hyphen :: hyphen :: b) ->
  slugify toLowerCase s = s.
Proof.
  intros L F H1 H2 D.
  assert (Fs : Forall (fun c => is_space c = false) s).
  { apply (Forall_impl _ slug_unit_not_space F). }
  rewrite slugify_chain, L.
  assert (T : trim s = s).
  { unfold trim.
    rewrite (drop_while_keeps is_space s).
    - rewrite (drop_while_keeps is_space (rev s)); [apply rev_involutive|].
      intros c r E. apply Forall_rev in Fs. rewrite E in Fs.
      inversion Fs; assumption.
    - intros c r E. rewrite E in Fs. inversion Fs; assumption. }
  rewrite T. unfold spaces_to_hyphens.
  rewrite (collapse_runs_none _ _ _ _ Fs).
  assert (K : keep_word_and_hyphen s = s).
  { unfold keep_word_and_hyphen. apply forallb_filter_id.
    apply forallb_forall. intros c I. apply slug_unit_kept.
    exact (proj1 (Forall_forall _ _) F c I). }
  rewrite K. unfold squeeze_hyphens.
  rewrite (squeeze_single s false D) by discriminate.
  unfold strip_leading_hyphens, strip_trailing_hyphens.
  rewrite (drop_while_keeps is_hyphen s).
  - rewrite (drop_while_keeps is_hyphen (rev s)); [apply rev_involutive|].
    intros c r E. destruct (is_hyphen c) eqn:Hc; [|reflexivity].
    apply N.eqb_eq in Hc. subst c. exfalso. apply (H2 (rev r)).
    rewrite <- (rev_involutive s), E. reflexivity.
  - intros c r E. destruct (is_hyphen c) eqn:Hc; [|reflexivity].
    apply N.eqb_eq in Hc. subst c. exfalso. exact (H1 r E).
Qed.

Lemma slugify_fixes_slugs_witness :
  slugify lower_ascii (lit "a-b") = lit "a-b".
Proof.
  apply (slugify_fixes_slugs lower_ascii (lit "a-b")).
  - reflexivity.
  - repeat constructor.
  - intros r H. discriminate H.
  - intros r H. apply (f_equal (@rev N)) in H.
    rewrite rev_app_distr in H. discriminate H.
  - intros a b H.
    destruct a as [|x1 a]; [discriminate H|].
    destruct a as [|x2 a]; [discriminate H|].
    destruct a as [|x3 a]; [discriminate H|].
    destruct a as [|x4 a]; discriminate H.
Defined.

(** ** The slug pass *)

Lemma member_map_set (k : jsstring) (v : json) (ms : list (jsstring * json)) :
  member k (map (fun kv => if str_eqb k (fst kv) then (fst kv, v) else kv) ms)
  = if has_key k ms then Some v else None.
Proof.
  unfold has_key. induction ms as [|[k' v'] ms IH]; [reflexivity|].
  cbn [map existsb fst].
  destruct (str_eqb k k') eqn:E; cbn [member orb]; rewrite IH, E;
    destruct (existsb _ ms); reflexivity.
Qed.

Lemma member_snoc (k k' : jsstring) (v : json) (ms : list (jsstring * json)) :
  member k' (ms ++ [(k, v)])
  = if str_eqb k' k then Some v else member k' ms.
Proof.
  induction ms as [|[k0 v0] ms IH]; simpl.
  - destruct (str_eqb k' k); reflexivity.
  - rewrite IH. destruct (str_eqb k' k); [reflexivity|].
    destruct (member k' ms); reflexivity.
Qed.

Lemma member_set_same (k : jsstring) (v : json) (ms : list (jsstring * json)) :
  member k (set_member k v ms) = Some v.
Proof.
  unfold set_member. destruct (has_key k ms) eqn:H.
  - rewrite member_map_set, H. reflexivity.
  - rewrite member_snoc, str_eqb_refl. reflexivity.
Qed.

Lemma member_set_other (k k' : jsstring) (v : json)
  (ms : list (jsstring * json)) :
  k' <> k -> member k' (set_member k v ms) = member k' ms.
Proof.
  intros D. unfold set_member. destruct (has_key k ms).
  - induction ms as [|[k0 v0] ms IH]; [reflexivity|].
    cbn [map fst].
    destruct (str_eqb k k0) eqn:E; cbn [member]; rewrite IH;
      [|reflexivity].
    destruct (member k' ms); [reflexivity|].
    apply str_eqb_eq in E. subst k0.
    assert (str_eqb k' k = false) as -> by (apply str_eqb_neq, D).
    reflexivity.
  - rewrite member_snoc.
    assert (str_eqb k' k = false) as -> by (apply str_eqb_neq, D).
    reflexivity.
Qed.

Lemma set_member_idem (k : jsstring) (v : json) (ms : list (jsstring * json)) :
  set_member k v (set_member k v ms) = set_member k v ms.
Proof.
  unfold set_member. destruct (has_key k ms) eqn:H.
  - assert (has_key k
              (map (fun kv => if str_eqb k (fst kv) then (fst kv, v) else kv)
                 ms) = true) as ->.
    { unfold has_key in *. rewrite existsb_exists in *.
      destruct H as ([k0 v0] & I & E). exists (k0, v). split; [|exact E].
      apply in_map_iff. exists (k0, v0). cbn [fst] in *. rewrite E. auto. }
    rewrite map_map. apply map_ext. intros [k0 v0]. cbn [fst].
    destruct (str_eqb k k0) eqn:E; cbn [fst]; rewrite E; reflexivity.
  - assert (has_key k (ms ++ [(k, v)]) = true) as ->.
    { unfold has_key. rewrite existsb_app. cbn. rewrite str_eqb_refl.
      apply orb_true_r. }
    rewrite map_app. cbn [map fst]. rewrite str_eqb_refl. f_equal.
    unfold has_key in H. induction ms as [|[k0 v0] ms IH]; [reflexivity|].
    cbn [existsb fst] in H. apply orb_false_iff in H. destruct H as [E H].
    cbn [map fst]. rewrite E, (IH H). reflexivity.
Qed.

Section SlugPass.

Variable toLowerCase : jsstring -> jsstring.
Variable toString : json -> completion jsstring.

(** What one turn of the loop returns. *)
Lemma generate_slug_cases (tool tool' : json) (o : option jsstring) :
  generate_slug toLowerCase toString tool = Normal (tool', o) ->
  (truthy (get tool "slug") = true /\ tool' = tool /\ o = None)
  \/ exists ms text,
       tool = JObj ms
       /\ truthy (get tool "slug") = false
       /\ title_text toString (get tool "title") = Normal text
       /\ tool' = JObj (set_member (lit "slug")
                           (JStr (slugify toLowerCase text)) ms)
       /\ o = Some (slugify toLowerCase text).
Proof.
  unfold generate_slug, prop.
  destruct tool as [|b0|x0|s0|l0|ms]; try discriminate; cbn [bind];
    destruct (truthy (get _ "slug")) eqn:T;
    try (intros E; injection E as <- <-; left; auto; fail);
    destruct (title_text toString (get _ "title")) as [text|e] eqn:X;
    cbn [bind]; try discriminate.
  intros E. injection E as <- <-. right. exists ms, text. auto.
Qed.

Lemma generate_slug_again (tool tool' : json) (o : option jsstring) :
  generate_slug toLowerCase toString tool = Normal (tool', o) ->
  generate_slug toLowerCase toString tool'
  = Normal (tool', match o with
                   | Some [] => Some []
                   | _ => None
                   end).
Proof.
  intros E. destruct (generate_slug_cases _ _ _ E)
    as [(T & -> & ->) | (ms & text & -> & T & X & -> & ->)].
  - unfold generate_slug, prop in *.
    destruct tool; try discriminate E; cbn [bind]; rewrite T; reflexivity.
  - unfold generate_slug, prop. cbn [bind get].
    rewrite member_set_same.
    assert (G : member (lit "title")
                  (set_member (lit "slug")
                     (JStr (slugify toLowerCase text)) ms)
                = member (lit "title") ms)
      by (apply member_set_other; discriminate).
    rewrite G. cbn [get] in X. rewrite X. cbn [bind].
    destruct (slugify toLowerCase text) as [|c r] eqn:S; cbn [truthy str_eqb negb].
    + rewrite set_member_idem. reflexivity.
    + reflexivity.
Qed.

(** X15: the slug pass is stable but not quiet.  Run on its own result it
    changes no record, yet it generates again (and so sets [modified]
    again) exactly the slugs that came out empty the first time. *)
Theorem slug_pass_again_regenerates_empty_slugs (tools out : list json)
  (slugs : list jsstring) :
  generate_slugs toLowerCase toString tools = Normal (out, slugs) ->
  generate_slugs toLowerCase toString out
  = Normal (out, filter (fun s => str_eqb s []) slugs).
Proof.
  revert out slugs.
  induction tools as [|tool tools IH]; intros out slugs; cbn [generate_slugs].
  - intros E. injection E as <- <-. reflexivity.
  - destruct (generate_slug toLowerCase toString tool) as [[t' o]|e] eqn:G;
      [|discriminate]. cbn [bind].
    destruct (generate_slugs toLowerCase toString tools) as [[ts ss]|e] eqn:R;
      [|discriminate]. cbn [bind fst snd].
    intros E. injection E as <- <-.
    cbn [generate_slugs]. rewrite (generate_slug_again _ _ _ G). cbn [bind].
    rewrite (IH ts ss eq_refl). cbn [bind fst snd].
    destruct o as [[|c r]|]; reflexivity.
Qed.

(** X16: what the slug pass does to each record.  A record with a truthy
    slug is left as it is; any other record keeps its title and gets as
    slug the [slugify] of its title text; the slugs generated are those of
    the records without a truthy slug, in order. *)
Theorem slug_pass_fills_missing_slugs (tools out : list json)
  (slugs : list jsstring) :
  generate_slugs toLowerCase toString tools = Normal (out, slugs) ->
  Forall2
    (fun tool tool' =>
       if truthy (get tool "slug") then tool' = tool
       else exists text,
              title_text toString (get tool "title") = Normal text
              /\ get tool' "slug" = Some (JStr (slugify toLowerCase text))
              /\ get tool' "title" = get tool "title")
    tools out
  /\ length slugs
     = length (filter (fun tool => negb (truthy (get tool "slug"))) tools).
Proof.
  revert out slugs.
  induction tools as [|tool tools IH]; intros out slugs; cbn [generate_slugs].
  - intros E. injection E as <- <-. split; [constructor | reflexivity].
  - destruct (generate_slug toLowerCase toString tool) as [[t' o]|e] eqn:G;
      [|discriminate]. cbn [bind].
    destruct (generate_slugs toLowerCase toString tools) as [[ts ss]|e] eqn:R;
      [|discriminate]. cbn [bind fst snd].
    intros E. injection E as <- <-.
    destruct (IH ts ss eq_refl) as [F L].
    destruct (generate_slug_cases _ _ _ G)
      as [(T & -> & ->) | (ms & text & -> & T & X & -> & ->)].
    + cbn [filter]. rewrite T. cbn [negb]. split; [|exact L].
      constructor; [rewrite T; reflexivity | exact F].
    + cbn [filter]. rewrite T. cbn [negb length]. split; [|congruence].
      constructor; [|exact F]. rewrite T. exists text.
      split; [exact X|]. cbn [get]. split.
      * apply member_set_same.
      * apply member_set_other. discriminate.
Qed.

End SlugPass.

Lemma slug_pass_again_regenerates_empty_slugs_witness :
  generate_slugs lower_ascii no_conversion
    [JObj [(lit "title", JStr (lit "Hello, World"));
           (lit "slug", JStr (lit "hello-world"))];
     JObj [(lit "title", JStr (lit "?!")); (lit "slug", JStr [])];
     JObj [(lit "title", JStr (lit "Kept")); (lit "slug", JStr (lit "mine"))]]
  = Normal
      ([JObj [(lit "title", JStr (lit "Hello, World"));
              (lit "slug", JStr (lit "hello-world"))];
        JObj [(lit "title", JStr (lit "?!")); (lit "slug", JStr [])];
        JObj [(lit "title", JStr (lit "Kept"));
              (lit "slug", JStr (lit "mine"))]],
       filter (fun s => str_eqb s []) [lit "hello-world"; []]).
Proof.
  apply (slug_pass_again_regenerates_empty_slugs lower_ascii no_conversion
           sample_content).
  vm_compute. reflexivity.
Defined.

Lemma slug_pass_fills_missing_slugs_witness :
  exists out slugs,
    generate_slugs lower_ascii no_conversion sample_content
    = Normal (out, slugs)
    /\ map (fun t => get t "slug") out
       = [Some (JStr (lit "hello-world")); Some (JStr []);
          Some (JStr (lit "mine"))]
    /\ length slugs
       = length (filter (fun tool => negb (truthy (get tool "slug")))
                   sample_content).
Proof.
  destruct (generate_slugs lower_ascii no_conversion sample_content)
    as [[out slugs]|e] eqn:E; [|vm_compute in E; discriminate E].
  pose proof (slug_pass_fills_missing_slugs lower_ascii no_conversion
                _ _ _ E) as [_ L].
  exists out, slugs. split; [reflexivity|].
  vm_compute in E. injection E as <- <-.
  split; [reflexivity | exact L].
Defined.

(** * The dashboard's event handlers *)

Import Dashboard.

Lemma detail_member (e : option jsval) (k : string) :
  get (detail_of e) k
  = match e with
    | Some (Some (JObj ms)) => member (lit k) ms
    | _ => undefined
    end.
Proof.
  destruct e as [[d|]|]; try reflexivity.
  unfold detail_of. destruct d; cbn [truthy];
    try match goal with |- context [if ?b then _ else _] => destruct b end;
    reflexivity.
Qed.

(** X17: a [tools:search] event changes the search query exactly when its
    detail is an object with a [query] member, whose value (be it [null]
    or the empty string) becomes the query; it never touches the
    new-only filter, a [tools:filter-new] event never touches the query,
    and the two handlers can run in either order. *)
Theorem dashboard_handlers_are_independent (e1 e2 : option jsval)
  (s : dashboard) :
  searchQuery (handleSearch e1 s)
  = match e1 with
    | Some (Some (JObj ms)) =>
        match member (lit "query") ms with
        | Some q => Some q
        | None => searchQuery s
        end
    | _ => searchQuery s
    end
  /\ filterNew (handleSearch e1 s) = filterNew s
  /\ searchQuery (handleFilterNew e2 s) = searchQuery s
  /\ handleSearch e1 (handleFilterNew e2 s)
     = handleFilterNew e2 (handleSearch e1 s).
Proof.
  unfold handleSearch, handleFilterNew. rewrite !detail_member.
  destruct e1 as [[[| | | | |ms1]|]|], e2 as [[[| | | | |ms2]|]|];
    try (repeat split; reflexivity);
    try (destruct (member (lit "filterNew") ms2); repeat split; reflexivity);
    try (destruct (member (lit "query") ms1); repeat split; reflexivity).
  destruct (member (lit "query") ms1), (member (lit "filterNew") ms2);
    repeat split; reflexivity.
Qed.

(** Clearing the search box sends the empty query, which is applied; an
    event without detail is ignored. *)
Example empty_query_is_applied :
  handleSearch (event [(lit "query", JStr [])])
    {| searchQuery := Some (JStr (lit "old")); filterNew := Some (JBool true) |}
  = {| searchQuery := Some (JStr []); filterNew := Some (JBool true) |}
  /\ handleSearch (Some undefined) initial = initial
  /\ handleSearch None initial = initial.
Proof. repeat split. Qed.
